(** * brick-game: the simulation loop of [renderer.js]

    A shallow embedding of the game's state (the module-level variables of
    [renderer.js]) and of the functions that change it: [resetGame],
    [endGame], [spawnEnemy], [update], [gameLoop] and the [keydown] handler.
    The script comes in two revisions; the model follows the one with
    [roadMargin] and [resizeCanvas].  The other differs, in the functions
    modelled, by the lane centre (no margin) and the fixed obstacle size.

    Numbers.  A JavaScript number that only ever holds an integer ([score],
    [highScore], [spawnTimer], a lane index) is a [Z].  The other numbers
    (speed, coordinates, sizes, timestamps) are modelled twice.  In the
    definitions that come first they are exact rationals [Q], so
    [Math.floor] is [Qfloor] and [<] is the order of [Q]; the rounding of
    IEEE doubles is not part of that model, which serves for what does not
    depend on it: the integer and boolean variables, which variables a
    function writes, orders and bounds.  Module [B64] then has the tick
    again on binary64 doubles, with the operations of the script as the
    IEEE ones; the statements about the amount a tick adds to [speed] or to
    an obstacle's [y] are made there.

    Host.  [Math.random] reads an arbitrary sequence of rationals through a
    call counter; [requestAnimationFrame] hands out fresh positive handles;
    the calls made to [window.electronAPI.setHighScore] are recorded in
    order.  Drawing and the two [Audio] elements never write a simulation
    variable and are left out. *)

From Stdlib Require Import ZArith QArith Qround Lqa Lia.
From Stdlib Require Import List Bool String Ascii.
From Stdlib Require Import Floats.PrimFloat Floats.FloatOps Floats.SpecFloat.
Import ListNotations.

Set Warnings "-inexact-float".

Local Open Scope Z_scope.

(** ** Numbers *)

(** [a < b] on JavaScript numbers, as a boolean test. *)
Definition Qltb (a b : Q) : bool := negb (Qle_bool b a).

(** [a > b]. *)
Definition Qgtb (a b : Q) : bool := Qltb b a.

(** [Math.floor]. *)
Definition Math_floor (a : Q) : Z := Qfloor a.

(** ** Entities *)

Module Player.
(** [const player = { lane, x, y, w, h, color }]; [color] is read by the
    drawing code only. *)
Record t : Type := mk { lane : Z; x : Q; y : Q; w : Q; h : Q }.

Definition set_lane (v : Z) (p : t) : t :=
  {| lane := v; x := x p; y := y p; w := w p; h := h p |}.

Definition set_x (v : Q) (p : t) : t :=
  {| lane := lane p; x := v; y := y p; w := w p; h := h p |}.
End Player.

Module Enemy.
(** The object pushed by [spawnEnemy]: [{ lane, x, y, w, h, color }]. *)
Record t : Type := mk { lane : Z; x : Q; y : Q; w : Q; h : Q }.

Definition set_x (v : Q) (e : t) : t :=
  {| lane := lane e; x := v; y := y e; w := w e; h := h e |}.

Definition set_y (v : Q) (e : t) : t :=
  {| lane := lane e; x := x e; y := v; w := w e; h := h e |}.
End Enemy.

(** ** Game state *)

(** Layout variables.  Only [resizeCanvas] and the image [load] handlers
    write them; the functions modelled here read them. *)
Record Layout : Type := mkLayout {
  W : Q;
  H : Q;
  laneWidth : Q;
  roadMargin : Q;
  enemyDefaultW : Q;
  enemyDefaultH : Q
}.

(** What the page sees of its host. *)
Record Host : Type := mkHost {
  (** [window.electronAPI && window.electronAPI.setHighScore] is truthy *)
  hasSetHighScore : bool;
  (** arguments of the calls to [window.electronAPI.setHighScore], oldest first *)
  setHighScoreCalls : list Z;
  (** [random n] is what the [n]-th call of [Math.random] returns *)
  random : nat -> Q;
  (** number of calls to [Math.random] so far *)
  randomCalls : nat;
  (** the handle the next call of [requestAnimationFrame] returns *)
  rafNext : positive
}.

Record Game : Type := mkGame {
  layout : Layout;
  host : Host;
  running : bool;
  score : Z;
  speed : Q;
  highScore : Z;
  (** [null] is [None] *)
  animationFrameId : option positive;
  player : Player.t;
  enemies : list Enemy.t;
  spawnTimer : Z;
  stripeOffset : Q;
  lastMoveTime : Q
}.

Definition lanes : Z := 3.
Definition spawnInterval : Z := 90.
Definition minMoveInterval : Q := 150.

Definition set_host (v : Host) (st : Game) : Game :=
  {| layout := layout st; host := v; running := running st;
     score := score st; speed := speed st; highScore := highScore st;
     animationFrameId := animationFrameId st; player := player st;
     enemies := enemies st; spawnTimer := spawnTimer st;
     stripeOffset := stripeOffset st; lastMoveTime := lastMoveTime st |}.

Definition set_running (v : bool) (st : Game) : Game :=
  {| layout := layout st; host := host st; running := v; score := score st;
     speed := speed st; highScore := highScore st;
     animationFrameId := animationFrameId st; player := player st;
     enemies := enemies st; spawnTimer := spawnTimer st;
     stripeOffset := stripeOffset st; lastMoveTime := lastMoveTime st |}.

Definition set_score (v : Z) (st : Game) : Game :=
  {| layout := layout st; host := host st; running := running st;
     score := v; speed := speed st; highScore := highScore st;
     animationFrameId := animationFrameId st; player := player st;
     enemies := enemies st; spawnTimer := spawnTimer st;
     stripeOffset := stripeOffset st; lastMoveTime := lastMoveTime st |}.

Definition set_speed (v : Q) (st : Game) : Game :=
  {| layout := layout st; host := host st; running := running st;
     score := score st; speed := v; highScore := highScore st;
     animationFrameId := animationFrameId st; player := player st;
     enemies := enemies st; spawnTimer := spawnTimer st;
     stripeOffset := stripeOffset st; lastMoveTime := lastMoveTime st |}.

Definition set_highScore (v : Z) (st : Game) : Game :=
  {| layout := layout st; host := host st; running := running st;
     score := score st; speed := speed st; highScore := v;
     animationFrameId := animationFrameId st; player := player st;
     enemies := enemies st; spawnTimer := spawnTimer st;
     stripeOffset := stripeOffset st; lastMoveTime := lastMoveTime st |}.

Definition set_animationFrameId (v : option positive) (st : Game) : Game :=
  {| layout := layout st; host := host st; running := running st;
     score := score st; speed := speed st; highScore := highScore st;
     animationFrameId := v; player := player st; enemies := enemies st;
     spawnTimer := spawnTimer st; stripeOffset := stripeOffset st;
     lastMoveTime := lastMoveTime st |}.

Definition set_player (v : Player.t) (st : Game) : Game :=
  {| layout := layout st; host := host st; running := running st;
     score := score st; speed := speed st; highScore := highScore st;
     animationFrameId := animationFrameId st; player := v;
     enemies := enemies st; spawnTimer := spawnTimer st;
     stripeOffset := stripeOffset st; lastMoveTime := lastMoveTime st |}.

Definition set_enemies (v : list Enemy.t) (st : Game) : Game :=
  {| layout := layout st; host := host st; running := running st;
     score := score st; speed := speed st; highScore := highScore st;
     animationFrameId := animationFrameId st; player := player st;
     enemies := v; spawnTimer := spawnTimer st;
     stripeOffset := stripeOffset st; lastMoveTime := lastMoveTime st |}.

Definition set_spawnTimer (v : Z) (st : Game) : Game :=
  {| layout := layout st; host := host st; running := running st;
     score := score st; speed := speed st; highScore := highScore st;
     animationFrameId := animationFrameId st; player := player st;
     enemies := enemies st; spawnTimer := v;
     stripeOffset := stripeOffset st; lastMoveTime := lastMoveTime st |}.

Definition set_stripeOffset (v : Q) (st : Game) : Game :=
  {| layout := layout st; host := host st; running := running st;
     score := score st; speed := speed st; highScore := highScore st;
     animationFrameId := animationFrameId st; player := player st;
     enemies := enemies st; spawnTimer := spawnTimer st; stripeOffset := v;
     lastMoveTime := lastMoveTime st |}.

Definition set_lastMoveTime (v : Q) (st : Game) : Game :=
  {| layout := layout st; host := host st; running := running st;
     score := score st; speed := speed st; highScore := highScore st;
     animationFrameId := animationFrameId st; player := player st;
     enemies := enemies st; spawnTimer := spawnTimer st;
     stripeOffset := stripeOffset st; lastMoveTime := v |}.

Definition set_setHighScoreCalls (v : list Z) (h : Host) : Host :=
  {| hasSetHighScore := hasSetHighScore h; setHighScoreCalls := v;
     random := random h; randomCalls := randomCalls h;
     rafNext := rafNext h |}.

Definition set_randomCalls (v : nat) (h : Host) : Host :=
  {| hasSetHighScore := hasSetHighScore h;
     setHighScoreCalls := setHighScoreCalls h;
     random := random h; randomCalls := v; rafNext := rafNext h |}.

Definition set_rafNext (v : positive) (h : Host) : Host :=
  {| hasSetHighScore := hasSetHighScore h;
     setHighScoreCalls := setHighScoreCalls h;
     random := random h; randomCalls := randomCalls h; rafNext := v |}.

(** ** Array helpers *)

(** [a[i] = v] for [i] inside the array. *)
Definition array_set {A : Type} (i : nat) (v : A) (a : list A) : list A :=
  firstn i a ++ v :: skipn (S i) a.

(** [a.splice(i, 1)]. *)
Definition splice1 {A : Type} (i : nat) (a : list A) : list A :=
  firstn i a ++ skipn (S i) a.

(** ** Keys *)

(** [String.prototype.toLowerCase] on the ASCII letters; other characters
    are kept, and none of them lower-cases to a letter of the handler. *)
Definition lower_ascii (c : ascii) : ascii :=
  let n := nat_of_ascii c in
  if (65 <=? n)%nat && (n <=? 90)%nat then ascii_of_nat (n + 32) else c.

Fixpoint toLowerCase (s : string) : string :=
  match s with
  | EmptyString => EmptyString
  | String c r => String (lower_ascii c) (toLowerCase r)
  end.

(** [e.key === 'ArrowLeft' || e.key.toLowerCase() === 'a'] *)
Definition isLeftKey (key : string) : bool :=
  (key =? "ArrowLeft")%string || (toLowerCase key =? "a")%string.

(** [e.key === 'ArrowRight' || e.key.toLowerCase() === 'd'] *)
Definition isRightKey (key : string) : bool :=
  (key =? "ArrowRight")%string || (toLowerCase key =? "d")%string.

(** ** Geometry *)

(** [roadMargin + lane * laneWidth + laneWidth / 2] *)
Definition laneCenter (l : Layout) (lane : Z) : Q :=
  (roadMargin l + inject_Z lane * laneWidth l + laneWidth l / 2)%Q.

(** The test of the collision loop, on the corners [px], [py], [ex], [ey]. *)
Definition overlaps (p : Player.t) (e : Enemy.t) : bool :=
  let px := (Player.x p - Player.w p / 2)%Q in
  let py := (Player.y p - Player.h p / 2)%Q in
  let ex := (Enemy.x e - Enemy.w e / 2)%Q in
  let ey := (Enemy.y e - Enemy.h e / 2)%Q in
  Qltb px (ex + Enemy.w e) && Qgtb (px + Player.w p) ex
  && Qltb py (ey + Enemy.h e) && Qgtb (py + Player.h p) ey.

(** One iteration of the loop over the enemies, at index [i]:
    [enemies[i].y += speed + 1; enemies[i].x = laneCenter;
     if (enemies[i].y > H + 100) enemies.splice(i, 1)]. *)
Definition enemyStep (l : Layout) (speed : Q) (i : nat)
    (es : list Enemy.t) : list Enemy.t :=
  match nth_error es i with
  | None => es
  | Some e =>
      let e := Enemy.set_y (Enemy.y e + (speed + 1))%Q e in
      let e := Enemy.set_x (laneCenter l (Enemy.lane e)) e in
      let es := array_set i e es in
      if Qgtb (Enemy.y e) (H l + 100)%Q then splice1 i es else es
  end.

(** What the body does to the obstacle it visits, and its removal test. *)
Definition moveEnemy (l : Layout) (speed : Q) (e : Enemy.t) : Enemy.t :=
  let e := Enemy.set_y (Enemy.y e + (speed + 1))%Q e in
  Enemy.set_x (laneCenter l (Enemy.lane e)) e.

Definition offScreen (l : Layout) (e : Enemy.t) : bool :=
  Qgtb (Enemy.y e) (H l + 100)%Q.

(** [for (let i = n - 1; i >= 0; i--) ...], entered with [n = enemies.length]. *)
Fixpoint enemiesLoop (l : Layout) (speed : Q) (n : nat)
    (es : list Enemy.t) : list Enemy.t :=
  match n with
  | O => es
  | S i => enemiesLoop l speed i (enemyStep l speed i es)
  end.

(** ** The functions of [renderer.js] *)

Definition endGame (st : Game) : Game :=
  let st := set_running false st in
  if score st >? highScore st then
    let st := set_highScore (score st) st in
    if hasSetHighScore (host st) then
      set_host (set_setHighScoreCalls
                  (setHighScoreCalls (host st) ++ [highScore st]) (host st)) st
    else st
  else st.

(** [for (const e of enemies) { if (...) { endGame(); break; } }] *)
Fixpoint collisionLoop (es : list Enemy.t) (st : Game) : Game :=
  match es with
  | [] => st
  | e :: rest =>
      if overlaps (player st) e then endGame st else collisionLoop rest st
  end.


Definition Math_random (st : Game) : Q * Game :=
  let n := randomCalls (host st) in
  (random (host st) n, set_host (set_randomCalls (S n) (host st)) st).

Definition spawnEnemy (st : Game) : Game :=
  let (r, st) := Math_random st in
  let lane := Math_floor (r * inject_Z lanes) in
  let w := enemyDefaultW (layout st) in
  let h := enemyDefaultH (layout st) in
  let x := laneCenter (layout st) lane in
  let (r, st) := Math_random st in
  let y := (- h - r * 200)%Q in
  set_enemies (enemies st ++ [Enemy.mk lane x y w h]) st.

Definition update (st : Game) : Game :=
  if negb (running st) then st else
  (* score += Math.floor(speed / 1.5) *)
  let st := set_score (score st + Math_floor (speed st / (3 # 2))) st in
  (* if (score % 1000 === 0) speed += 0.2 *)
  let st := if Z.rem (score st) 1000 =? 0
            then set_speed (speed st + (1 # 5))%Q st else st in
  (* player.x = lane center *)
  let st := set_player
              (Player.set_x (laneCenter (layout st) (Player.lane (player st)))
                            (player st)) st in
  (* spawnTimer++; if (spawnTimer >= spawnInterval) {...} *)
  let st := set_spawnTimer (spawnTimer st + 1) st in
  let st := if spawnTimer st >=? spawnInterval
            then spawnEnemy (set_spawnTimer 0 st) else st in
  (* update enemies *)
  let st := set_enemies
              (enemiesLoop (layout st) (speed st)
                           (List.length (enemies st)) (enemies st)) st in
  (* collision check *)
  let st := collisionLoop (enemies st) st in
  (* stripeOffset += speed *)
  set_stripeOffset (stripeOffset st + speed st)%Q st.

(** [draw()] writes the canvas and the HUD only. *)
Definition gameLoop (st : Game) : Game :=
  let st := if running st then update st else st in
  let id := rafNext (host st) in
  let st := set_host (set_rafNext (Pos.succ id) (host st)) st in
  set_animationFrameId (Some id) st.

Definition resetGame (st : Game) : Game :=
  let st := set_score 0 st in
  let st := set_speed 3 st in
  let st := set_enemies [] st in
  let st := set_spawnTimer 0 st in
  let st := set_stripeOffset 0 st in
  let st := set_player (Player.set_lane 1 (player st)) st in
  let st := set_running true st in
  (* if (!animationFrameId) gameLoop() *)
  match animationFrameId st with
  | None => gameLoop st
  | Some _ => st
  end.

(** The [keydown] listener; [now] is [performance.now()], [key] is [e.key]. *)
Definition keydown (now : Q) (key : string) (st : Game) : Game :=
  if Qltb (now - lastMoveTime st) minMoveInterval then st else
  let st :=
    if isLeftKey key then
      set_lastMoveTime now
        (set_player (Player.set_lane (Z.max 0 (Player.lane (player st) - 1))
                                     (player st)) st)
    else st in
  let st :=
    if isRightKey key then
      set_lastMoveTime now
        (set_player (Player.set_lane
                       (Z.min (lanes - 1) (Player.lane (player st) + 1))
                       (player st)) st)
    else st in
  st.

(** The values the module-level declarations give the variables, for a
    canvas of [cw] by [ch] pixels, on a host that has or has not the
    preload script's [electronAPI] and whose [Math.random] returns [rnd]. *)
Definition game0 (cw ch : Q) (api : bool) (rnd : nat -> Q) : Game :=
  let lw := (cw / inject_Z lanes)%Q in
  {| layout := {| W := cw; H := ch; laneWidth := lw; roadMargin := 40;
                  enemyDefaultW := 40; enemyDefaultH := 70 |};
     host := {| hasSetHighScore := api; setHighScoreCalls := [];
                random := rnd; randomCalls := 0; rafNext := 1 |};
     running := false; score := 0; speed := 3; highScore := 0;
     animationFrameId := None;
     player := {| Player.lane := 1; Player.x := (lw * 1 + lw / 2)%Q;
                  Player.y := (ch - 120)%Q; Player.w := 40; Player.h := 70 |};
     enemies := []; spawnTimer := 0; stripeOffset := 0; lastMoveTime := 0 |}.

(** The handler changes something exactly for a request that passes the
    time test and carries one of the four lane keys. *)
Definition accepted (now : Q) (key : string) (st : Game) : bool :=
  negb (Qltb (now - lastMoveTime st) minMoveInterval)
  && (isLeftKey key || isRightKey key).

(** ** Runs *)

(** What can happen to a loaded page: an animation frame, a key press, a
    click on the restart button, and [window._game.endGame()]. *)
Inductive Action : Type :=
| Frame
| KeyDown (now : Q) (key : string)
| Restart
| EndGame.

Definition step (a : Action) (st : Game) : Game :=
  match a with
  | Frame => gameLoop st
  | KeyDown now key => keydown now key st
  | Restart => resetGame st
  | EndGame => endGame st
  end.

Fixpoint run (acts : list Action) (st : Game) : Game :=
  match acts with
  | [] => st
  | a :: rest => run rest (step a st)
  end.

(** A sequence of key presses, each with its timestamp. *)
Fixpoint keydowns (evs : list (Q * string)) (st : Game) : Game :=
  match evs with
  | [] => st
  | (now, key) :: rest => keydowns rest (keydown now key st)
  end.

Definition laneInRange (st : Game) : Prop :=
  0 <= Player.lane (player st) <= lanes - 1.

(** [n] animation frames in a row. *)
Fixpoint ticks (n : nat) (st : Game) : Game :=
  match n with
  | O => st
  | S k => ticks k (gameLoop st)
  end.

(** The state [update] has built when it enters the collision loop. *)
Definition beforeCollision (st : Game) : Game :=
  let st := set_score (score st + Math_floor (speed st / (3 # 2))) st in
  let st := if Z.rem (score st) 1000 =? 0
            then set_speed (speed st + (1 # 5))%Q st else st in
  let st := set_player
              (Player.set_x (laneCenter (layout st) (Player.lane (player st)))
                            (player st)) st in
  let st := set_spawnTimer (spawnTimer st + 1) st in
  let st := if spawnTimer st >=? spawnInterval
            then spawnEnemy (set_spawnTimer 0 st) else st in
  set_enemies
    (enemiesLoop (layout st) (speed st)
                 (List.length (enemies st)) (enemies st)) st.

(** ** Sample states *)

(** A host whose [Math.random] always returns 0. *)
Definition zeroRandom (n : nat) : Q := 0.

(** The page as the declarations leave it, on a canvas of 480 by 640, with
    and without the preload script's [electronAPI]. *)
Definition loaded : Game := game0 480 640 true zeroRandom.
Definition loadedNoAPI : Game := game0 480 640 false zeroRandom.

(** The game after the first [resetGame], the one the page makes when its
    content is loaded. *)
Definition started : Game := resetGame loaded.

(** One obstacle in lane 0 at [y = -70], the player in lane 1. *)
Definition oneObstacle : Game :=
  set_enemies [Enemy.mk 0 120 (-70) 40 70] started.


(** ** Views used by the further properties *)

(** The pool after the spawn step of [update]: the obstacle is pushed when
    the incremented [spawnTimer] reaches [spawnInterval]. *)
Definition afterSpawn (st : Game) : list Enemy.t :=
  if spawnTimer st + 1 >=? spawnInterval then
    enemies (spawnEnemy st)
  else enemies st.

(** The obstacles of the pool are all in one of the lanes. *)
Definition enemyLanesInRange (st : Game) : Prop :=
  Forall (fun e : Enemy.t => 0 <= Enemy.lane e <= lanes - 1) (enemies st).

(** [Math.random] returns values in [0, 1). *)
Definition randomInUnit (st : Game) : Prop :=
  forall n : nat, (0 <= random (host st) n < 1)%Q.

(** The number of animation frames among the actions. *)
Fixpoint frames (acts : list Action) : nat :=
  match acts with
  | [] => 0
  | Frame :: rest => S (frames rest)
  | _ :: rest => frames rest
  end.

(** ** The preload script: the high score in [localStorage] *)

(** [localStorage]: its items, and whether reading or writing throws (the
    storage can be disabled or full).  Both functions of the preload
    script catch what it throws. *)
Record Storage : Type := mkStorage {
  items : list (string * string);
  getItemThrows : bool;
  setItemThrows : bool
}.

(** [localStorage.getItem(k)]; [null] is [None]. *)
Fixpoint getItem (k : string) (kvs : list (string * string)) : option string :=
  match kvs with
  | [] => None
  | (k', v) :: rest => if (k' =? k)%string then Some v else getItem k rest
  end.

(** [localStorage.setItem(k, v)]: the value of [k] is replaced, or the
    item is added. *)
Fixpoint setItem (k v : string) (kvs : list (string * string))
    : list (string * string) :=
  match kvs with
  | [] => [(k, v)]
  | (k', v') :: rest =>
      if (k' =? k)%string then (k, v) :: rest
      else (k', v') :: setItem k v rest
  end.

(** The decimal digit [d], for [0 <= d <= 9]. *)
Definition digitChar (d : Z) : ascii := ascii_of_nat (48 + Z.to_nat d).

Fixpoint digitsAux (fuel : nat) (n : Z) (acc : string) : string :=
  match fuel with
  | O => acc
  | S f =>
      let acc := String (digitChar (n mod 10)) acc in
      if n <? 10 then acc else digitsAux f (n / 10) acc
  end.

(** The decimal digits of [n >= 0], most significant first. *)
Definition digits (n : Z) : string :=
  digitsAux (S (Z.to_nat (Z.log2 n))) n EmptyString.

(** [String(v)] for an integer [v] of absolute value below 2^53: the
    decimal digits, after a minus sign if [v] is negative. *)
Definition String_of_number (v : Z) : string :=
  if v <? 0 then String "-" (digits (- v)) else digits v.

(** The blanks [parseInt] skips, among the ASCII characters: tab, line
    feed, vertical tab, form feed, carriage return and space. *)
Definition isBlank (c : ascii) : bool :=
  let n := nat_of_ascii c in
  ((9 <=? n)%nat && (n <=? 13)%nat) || (n =? 32)%nat.

Definition isDigit (c : ascii) : bool :=
  let n := nat_of_ascii c in (48 <=? n)%nat && (n <=? 57)%nat.

Fixpoint skipBlanks (s : string) : string :=
  match s with
  | String c r => if isBlank c then skipBlanks r else s
  | EmptyString => s
  end.

(** The value of the longest prefix of digits of [s], read after the
    digits of value [acc]; [None] if no digit was read at all ([seen]
    tells whether one was). *)
Fixpoint parseDigits (s : string) (seen : bool) (acc : Z) : option Z :=
  match s with
  | String c r =>
      if isDigit c
      then parseDigits r true (acc * 10 + Z.of_nat (nat_of_ascii c - 48))
      else if seen then Some acc else None
  | EmptyString => if seen then Some acc else None
  end.

(** [parseInt(s, 10)] for a string of ASCII characters; [NaN] is [None].
    The value is exact: the model has no rounding above 2^53. *)
Definition parseInt (s : string) : option Z :=
  match skipBlanks s with
  | String "-" r => option_map Z.opp (parseDigits r false 0)
  | String "+" r => parseDigits r false 0
  | r => parseDigits r false 0
  end.

(** [getHighScore] of the preload script; [NaN] is [None]. *)
Definition getHighScore (s : Storage) : option Z :=
  if getItemThrows s then Some 0 (* catch (e) { return 0 } *)
  else
    match getItem "brick_high" (items s) with
    | None => Some 0
    | Some raw =>
        (* raw ? parseInt(raw, 10) : 0 *)
        if (raw =? EmptyString)%string then Some 0 else parseInt raw
    end.

(** [setHighScore] of the preload script. *)
Definition setHighScore (v : Z) (s : Storage) : Storage :=
  if setItemThrows s then s (* catch (e) {} *)
  else
    {| items := setItem "brick_high" (String_of_number v) (items s);
       getItemThrows := getItemThrows s;
       setItemThrows := setItemThrows s |}.

(** The storage after the calls the page made to [setHighScore]. *)
Definition persist (calls : list Z) (s : Storage) : Storage :=
  fold_left (fun s v => setHighScore v s) calls s.

(** [s] is empty or starts with a character that is not a digit. *)
Definition noLeadingDigit (s : string) : bool :=
  match s with
  | EmptyString => true
  | String c _ => negb (isDigit c)
  end.

(** What [String] and [parseInt] treat exactly: the integers below 2^53 in
    absolute value. *)
Definition safeInteger (v : Z) : Prop := Z.abs v < 2 ^ 53.

(** ** Layout: [resizeCanvas] and the image handlers *)

(** [Math.round]: the nearest integer, a half going up. *)
Definition Math_round (a : Q) : Z := Qfloor (a + (1 # 2)).

Definition Math_max (a b : Q) : Q := if Qltb a b then b else a.

Definition Math_min (a b : Q) : Q := if Qltb b a then b else a.

(** The two images: whether the [load] event has come, and the natural
    width and height it came with (a decoded PNG is at least 1 by 1; the
    size is read only when the image is loaded). *)
Record Images : Type := mkImages {
  playerImgLoaded : bool;
  playerImgNatural : positive * positive;
  trafficImgLoaded : bool;
  trafficImgNatural : positive * positive
}.

(** The game together with the images. *)
Record Page : Type := mkPage {
  images : Images;
  game : Game
}.

Definition set_layout (v : Layout) (st : Game) : Game :=
  {| layout := v; host := host st; running := running st;
     score := score st; speed := speed st; highScore := highScore st;
     animationFrameId := animationFrameId st; player := player st;
     enemies := enemies st; spawnTimer := spawnTimer st;
     stripeOffset := stripeOffset st; lastMoveTime := lastMoveTime st |}.

(** [img.naturalWidth / img.naturalHeight || 1] *)
Definition aspectRatio (natural : positive * positive) : Q :=
  let a := (inject_Z (Z.pos (fst natural))
            / inject_Z (Z.pos (snd natural)))%Q in
  if Qeq_bool a 0 then 1 else a.

(** [Math.max(40, Math.round(h * 0.14))] *)
Definition targetHeight (h : Q) : Q :=
  Math_max 40 (inject_Z (Math_round (h * (7 # 50)))).

(** The width and the height [resizeCanvas] gives a car on a canvas of
    height [h]; the source has the computation twice, for the player and
    for the default size of the obstacles. *)
Definition carSize (loaded : bool) (natural : positive * positive) (h : Q)
    : Q * Q :=
  if loaded then
    let aspect := aspectRatio natural in
    (inject_Z (Math_round (targetHeight h * aspect)), targetHeight h)
  else
    let ch := Math_max 40 (inject_Z (Math_round (h * (3 # 25)))) in
    (Math_max 30 (inject_Z (Math_round (ch * (3 # 5)))), ch).

(** [resizeCanvas], for a window of inner size [iw] by [ih].  The bitmap
    size, the style and the transform of the canvas belong to the drawing
    surface and are left out. *)
Definition resizeCanvas (iw ih : Q) (pg : Page) : Page :=
  let st := game pg in
  let cssW := Math_max 320 (Math_min (iw * (19 # 20)) 1600) in
  let cssH := Math_max 240 (Math_min (ih * (9 # 10)) 1100) in
  let margin := Math_max 20 (inject_Z (Math_round (cssW * (3 # 50)))) in
  let innerRoadWidth := Math_max 100 (cssW - margin * 2) in
  let lw := (innerRoadWidth / inject_Z lanes)%Q in
  let psize := carSize (playerImgLoaded (images pg))
                       (playerImgNatural (images pg)) cssH in
  let esize := carSize (trafficImgLoaded (images pg))
                       (trafficImgNatural (images pg)) cssH in
  let l := {| W := cssW; H := cssH; laneWidth := lw; roadMargin := margin;
              enemyDefaultW := fst esize; enemyDefaultH := snd esize |} in
  let p := {| Player.lane := Player.lane (player st);
              Player.x := laneCenter l (Player.lane (player st));
              Player.y := (cssH - inject_Z (Math_round (cssH * (9 # 50))))%Q;
              Player.w := fst psize; Player.h := snd psize |} in
  let es := map (fun e => Enemy.set_x (laneCenter l (Enemy.lane e)) e)
                (enemies st) in
  {| images := images pg;
     game := set_enemies es (set_player p (set_layout l st)) |}.

(** The [load] listener of the player's image; [nw] and [nh] are the
    natural width and height of the image. *)
Definition onPlayerImgLoad (nw nh : positive) (pg : Page) : Page :=
  let st := game pg in
  let h := H (layout st) in
  (* (H || 480) *)
  let targetH := targetHeight (if Qeq_bool h 0 then 480 else h) in
  let aspect := aspectRatio (nw, nh) in
  let p := {| Player.lane := Player.lane (player st);
              Player.x := Player.x (player st);
              Player.y := Player.y (player st);
              Player.w := inject_Z (Math_round (targetH * aspect));
              Player.h := targetH |} in
  {| images := {| playerImgLoaded := true; playerImgNatural := (nw, nh);
                  trafficImgLoaded := trafficImgLoaded (images pg);
                  trafficImgNatural := trafficImgNatural (images pg) |};
     game := set_player p st |}.

(** The [load] listener of the obstacles' image. *)
Definition onTrafficImgLoad (nw nh : positive) (pg : Page) : Page :=
  let st := game pg in
  let l := layout st in
  let targetH := targetHeight (if Qeq_bool (H l) 0 then 480 else H l) in
  let aspect := aspectRatio (nw, nh) in
  {| images := {| playerImgLoaded := playerImgLoaded (images pg);
                  playerImgNatural := playerImgNatural (images pg);
                  trafficImgLoaded := true;
                  trafficImgNatural := (nw, nh) |};
     game := set_layout
               {| W := W l; H := H l; laneWidth := laneWidth l;
                  roadMargin := roadMargin l;
                  enemyDefaultW := inject_Z (Math_round (targetH * aspect));
                  enemyDefaultH := targetH |} st |}.

(** The [DOMContentLoaded] listener: the high score is read if the host
    exposes [getHighScore] ([hasGet]), the canvas is sized, the game is
    started.  The result is [None] when [getHighScore] returns [NaN],
    which the [highScore] of the model cannot hold. *)
Definition onDOMContentLoaded (hasGet : bool) (s : Storage) (iw ih : Q)
    (pg : Page) : option Page :=
  let loadedScore :=
    if hasGet then getHighScore s else Some (highScore (game pg)) in
  match loadedScore with
  | None => None
  | Some v =>
      let pg := {| images := images pg;
                   game := set_highScore v (game pg) |} in
      let pg := resizeCanvas iw ih pg in
      Some {| images := images pg; game := resetGame (game pg) |}
  end.

(** ** More sample states *)

(** A storage that works and holds another item only. *)
Definition otherItemStorage : Storage :=
  {| items := [("volume", "3")]%string;
     getItemThrows := false; setItemThrows := false |}.

(** A storage that throws on every access. *)
Definition brokenStorage : Storage :=
  {| items := []; getItemThrows := true; setItemThrows := true |}.

(** The page as loaded, no image loaded yet. *)
Definition loadedPage : Page :=
  {| images := {| playerImgLoaded := false; playerImgNatural := (1, 1)%positive;
                  trafficImgLoaded := false;
                  trafficImgNatural := (1, 1)%positive |};
     game := loaded |}.

(** A game restarted by the button, after the start. *)
Definition restarted : Game := resetGame started.


(** * The tick on IEEE doubles

    The definitions above compute with exact rationals.  Module [B64] has
    the variables and the functions of the tick again, [endGame],
    [spawnEnemy], [update], [gameLoop] and [resetGame], with every number
    that is not an integer held as a binary64 double ([float]) and every
    [+], [-], [*], [/], [<] and [>] of the script as the IEEE operation,
    rounded to nearest, ties to even, which is what JavaScript computes.
    Statements about the amount a tick adds to a value are made on [B64]:
    there [speed + 0.2] is the sum the script stores. *)

Module B64.

(** ** Numbers *)

(** The rational a finite double stands for.  Infinities and NaN stand
    for no number; they are given 0 here and are kept out of the
    statements that use [value]. *)
Definition value (x : float) : Q :=
  match Prim2SF x with
  | S754_finite s m e =>
      let n := if s then Z.neg m else Z.pos m in
      if 0 <=? e then inject_Z (n * 2 ^ e)
      else n # (2 ^ Z.to_pos (- e))%positive
  | _ => 0
  end.

(** [Math.floor] of a finite double, as the integer it is; the script
    adds it to [score] and takes it as a lane index, integers both.  Of an
    infinity or of NaN [Math.floor] is no integer: the function gives 0
    there, and the statement on [score] asks for a finite argument. *)
Definition Math_floor (x : float) : Z := Qfloor (value x).

(** The double a lane index or a constant integer is: the integer itself
    below 2^53 in size. *)
Definition of_Z (z : Z) : float :=
  SF2Prim (binary_normalize prec emax z 0 false).

(** ** Entities *)

Module Player.
Record t : Type := mk { lane : Z; x : float; y : float; w : float; h : float }.

Definition set_lane (v : Z) (p : t) : t :=
  {| lane := v; x := x p; y := y p; w := w p; h := h p |}.

Definition set_x (v : float) (p : t) : t :=
  {| lane := lane p; x := v; y := y p; w := w p; h := h p |}.
End Player.

Module Enemy.
Record t : Type := mk { lane : Z; x : float; y : float; w : float; h : float }.

Definition set_x (v : float) (e : t) : t :=
  {| lane := lane e; x := v; y := y e; w := w e; h := h e |}.

Definition set_y (v : float) (e : t) : t :=
  {| lane := lane e; x := x e; y := v; w := w e; h := h e |}.
End Enemy.

(** ** Game state *)

Record Layout : Type := mkLayout {
  W : float;
  H : float;
  laneWidth : float;
  roadMargin : float;
  enemyDefaultW : float;
  enemyDefaultH : float
}.

Record Host : Type := mkHost {
  hasSetHighScore : bool;
  setHighScoreCalls : list Z;
  (** [random n] is what the [n]-th call of [Math.random] returns *)
  random : nat -> float;
  randomCalls : nat;
  rafNext : positive
}.

(** The variables the tick and the restart read or write. *)
Record Game : Type := mkGame {
  layout : Layout;
  host : Host;
  running : bool;
  score : Z;
  speed : float;
  highScore : Z;
  animationFrameId : option positive;
  player : Player.t;
  enemies : list Enemy.t;
  spawnTimer : Z;
  stripeOffset : float
}.

Definition set_host (v : Host) (st : Game) : Game :=
  {| layout := layout st; host := v; running := running st;
     score := score st; speed := speed st; highScore := highScore st;
     animationFrameId := animationFrameId st; player := player st;
     enemies := enemies st; spawnTimer := spawnTimer st;
     stripeOffset := stripeOffset st |}.

Definition set_running (v : bool) (st : Game) : Game :=
  {| layout := layout st; host := host st; running := v; score := score st;
     speed := speed st; highScore := highScore st;
     animationFrameId := animationFrameId st; player := player st;
     enemies := enemies st; spawnTimer := spawnTimer st;
     stripeOffset := stripeOffset st |}.

Definition set_score (v : Z) (st : Game) : Game :=
  {| layout := layout st; host := host st; running := running st; score := v;
     speed := speed st; highScore := highScore st;
     animationFrameId := animationFrameId st; player := player st;
     enemies := enemies st; spawnTimer := spawnTimer st;
     stripeOffset := stripeOffset st |}.

Definition set_speed (v : float) (st : Game) : Game :=
  {| layout := layout st; host := host st; running := running st;
     score := score st; speed := v; highScore := highScore st;
     animationFrameId := animationFrameId st; player := player st;
     enemies := enemies st; spawnTimer := spawnTimer st;
     stripeOffset := stripeOffset st |}.

Definition set_highScore (v : Z) (st : Game) : Game :=
  {| layout := layout st; host := host st; running := running st;
     score := score st; speed := speed st; highScore := v;
     animationFrameId := animationFrameId st; player := player st;
     enemies := enemies st; spawnTimer := spawnTimer st;
     stripeOffset := stripeOffset st |}.

Definition set_animationFrameId (v : option positive) (st : Game) : Game :=
  {| layout := layout st; host := host st; running := running st;
     score := score st; speed := speed st; highScore := highScore st;
     animationFrameId := v; player := player st; enemies := enemies st;
     spawnTimer := spawnTimer st; stripeOffset := stripeOffset st |}.

Definition set_player (v : Player.t) (st : Game) : Game :=
  {| layout := layout st; host := host st; running := running st;
     score := score st; speed := speed st; highScore := highScore st;
     animationFrameId := animationFrameId st; player := v;
     enemies := enemies st; spawnTimer := spawnTimer st;
     stripeOffset := stripeOffset st |}.

Definition set_enemies (v : list Enemy.t) (st : Game) : Game :=
  {| layout := layout st; host := host st; running := running st;
     score := score st; speed := speed st; highScore := highScore st;
     animationFrameId := animationFrameId st; player := player st;
     enemies := v; spawnTimer := spawnTimer st;
     stripeOffset := stripeOffset st |}.

Definition set_spawnTimer (v : Z) (st : Game) : Game :=
  {| layout := layout st; host := host st; running := running st;
     score := score st; speed := speed st; highScore := highScore st;
     animationFrameId := animationFrameId st; player := player st;
     enemies := enemies st; spawnTimer := v;
     stripeOffset := stripeOffset st |}.

Definition set_stripeOffset (v : float) (st : Game) : Game :=
  {| layout := layout st; host := host st; running := running st;
     score := score st; speed := speed st; highScore := highScore st;
     animationFrameId := animationFrameId st; player := player st;
     enemies := enemies st; spawnTimer := spawnTimer st;
     stripeOffset := v |}.
Definition set_setHighScoreCalls (v : list Z) (h : Host) : Host :=
  {| hasSetHighScore := hasSetHighScore h; setHighScoreCalls := v;
     random := random h; randomCalls := randomCalls h;
     rafNext := rafNext h |}.

Definition set_randomCalls (v : nat) (h : Host) : Host :=
  {| hasSetHighScore := hasSetHighScore h;
     setHighScoreCalls := setHighScoreCalls h;
     random := random h; randomCalls := v; rafNext := rafNext h |}.

Definition set_rafNext (v : positive) (h : Host) : Host :=
  {| hasSetHighScore := hasSetHighScore h;
     setHighScoreCalls := setHighScoreCalls h;
     random := random h; randomCalls := randomCalls h; rafNext := v |}.

(** ** Geometry *)

(** [roadMargin + lane * laneWidth + laneWidth / 2] *)
Definition laneCenter (l : Layout) (lane : Z) : float :=
  (roadMargin l + of_Z lane * laneWidth l + laneWidth l / 2)%float.

(** The test of the collision loop. *)
Definition overlaps (p : Player.t) (e : Enemy.t) : bool :=
  let px := (Player.x p - Player.w p / 2)%float in
  let py := (Player.y p - Player.h p / 2)%float in
  let ex := (Enemy.x e - Enemy.w e / 2)%float in
  let ey := (Enemy.y e - Enemy.h e / 2)%float in
  (px <? ex + Enemy.w e)%float && (ex <? px + Player.w p)%float
  && (py <? ey + Enemy.h e)%float && (ey <? py + Player.h p)%float.

(** One iteration of the loop over the enemies, at index [i]:
    [enemies[i].y += speed + 1; enemies[i].x = laneCenter;
     if (enemies[i].y > H + 100) enemies.splice(i, 1)]. *)
Definition enemyStep (l : Layout) (speed : float) (i : nat)
    (es : list Enemy.t) : list Enemy.t :=
  match nth_error es i with
  | None => es
  | Some e =>
      let e := Enemy.set_y (Enemy.y e + (speed + 1))%float e in
      let e := Enemy.set_x (laneCenter l (Enemy.lane e)) e in
      let es := array_set i e es in
      if (H l + 100 <? Enemy.y e)%float then splice1 i es else es
  end.

(** What the body does to the obstacle it visits, and its removal test. *)
Definition moveEnemy (l : Layout) (speed : float) (e : Enemy.t) : Enemy.t :=
  let e := Enemy.set_y (Enemy.y e + (speed + 1))%float e in
  Enemy.set_x (laneCenter l (Enemy.lane e)) e.

Definition offScreen (l : Layout) (e : Enemy.t) : bool :=
  (H l + 100 <? Enemy.y e)%float.

(** [for (let i = n - 1; i >= 0; i--) ...], entered with [n = enemies.length]. *)
Fixpoint enemiesLoop (l : Layout) (speed : float) (n : nat)
    (es : list Enemy.t) : list Enemy.t :=
  match n with
  | O => es
  | S i => enemiesLoop l speed i (enemyStep l speed i es)
  end.

(** ** The functions of [renderer.js] *)

Definition endGame (st : Game) : Game :=
  let st := set_running false st in
  if score st >? highScore st then
    let st := set_highScore (score st) st in
    if hasSetHighScore (host st) then
      set_host (set_setHighScoreCalls
                  (setHighScoreCalls (host st) ++ [highScore st]) (host st)) st
    else st
  else st.

(** [for (const e of enemies) { if (...) { endGame(); break; } }] *)
Fixpoint collisionLoop (es : list Enemy.t) (st : Game) : Game :=
  match es with
  | [] => st
  | e :: rest =>
      if overlaps (player st) e then endGame st else collisionLoop rest st
  end.

Definition Math_random (st : Game) : float * Game :=
  let n := randomCalls (host st) in
  (random (host st) n, set_host (set_randomCalls (S n) (host st)) st).

Definition spawnEnemy (st : Game) : Game :=
  let (r, st) := Math_random st in
  let lane := Math_floor (r * of_Z lanes)%float in
  let w := enemyDefaultW (layout st) in
  let h := enemyDefaultH (layout st) in
  let x := laneCenter (layout st) lane in
  let (r, st) := Math_random st in
  let y := (- h - r * 200)%float in
  set_enemies (enemies st ++ [Enemy.mk lane x y w h]) st.

Definition update (st : Game) : Game :=
  if negb (running st) then st else
  (* score += Math.floor(speed / 1.5) *)
  let st := set_score (score st + Math_floor (speed st / 1.5)%float) st in
  (* if (score % 1000 === 0) speed += 0.2 *)
  let st := if Z.rem (score st) 1000 =? 0
            then set_speed (speed st + 0.2)%float st else st in
  (* player.x = lane center *)
  let st := set_player
              (Player.set_x (laneCenter (layout st) (Player.lane (player st)))
                            (player st)) st in
  (* spawnTimer++; if (spawnTimer >= spawnInterval) {...} *)
  let st := set_spawnTimer (spawnTimer st + 1) st in
  let st := if spawnTimer st >=? spawnInterval
            then spawnEnemy (set_spawnTimer 0 st) else st in
  (* update enemies *)
  let st := set_enemies
              (enemiesLoop (layout st) (speed st)
                           (List.length (enemies st)) (enemies st)) st in
  (* collision check *)
  let st := collisionLoop (enemies st) st in
  (* stripeOffset += speed *)
  set_stripeOffset (stripeOffset st + speed st)%float st.

(** [draw()] writes the canvas and the HUD only. *)
Definition gameLoop (st : Game) : Game :=
  let st := if running st then update st else st in
  let id := rafNext (host st) in
  let st := set_host (set_rafNext (Pos.succ id) (host st)) st in
  set_animationFrameId (Some id) st.

Definition resetGame (st : Game) : Game :=
  let st := set_score 0 st in
  let st := set_speed 3%float st in
  let st := set_enemies [] st in
  let st := set_spawnTimer 0 st in
  let st := set_stripeOffset 0%float st in
  let st := set_player (Player.set_lane 1 (player st)) st in
  let st := set_running true st in
  (* if (!animationFrameId) gameLoop() *)
  match animationFrameId st with
  | None => gameLoop st
  | Some _ => st
  end.

(** The values the module-level declarations give the variables, for a
    canvas of [cw] by [ch] pixels. *)
Definition game0 (cw ch : float) (api : bool) (rnd : nat -> float) : Game :=
  let lw := (cw / of_Z lanes)%float in
  {| layout := {| W := cw; H := ch; laneWidth := lw; roadMargin := 40%float;
                  enemyDefaultW := 40%float; enemyDefaultH := 70%float |};
     host := {| hasSetHighScore := api; setHighScoreCalls := [];
                random := rnd; randomCalls := 0; rafNext := 1 |};
     running := false; score := 0; speed := 3%float; highScore := 0;
     animationFrameId := None;
     player := {| Player.lane := 1; Player.x := (lw * 1 + lw / 2)%float;
                  Player.y := (ch - 120)%float; Player.w := 40%float;
                  Player.h := 70%float |};
     enemies := []; spawnTimer := 0; stripeOffset := 0%float |}.

(** ** Runs *)

(** [n] animation frames in a row. *)
Fixpoint ticks (n : nat) (st : Game) : Game :=
  match n with
  | O => st
  | S k => ticks k (gameLoop st)
  end.

(** The pool the loop over the enemies is entered with: the pool of the
    state, and behind it the obstacle spawned in this tick if there is
    one. *)
Definition afterSpawn (st : Game) : list Enemy.t :=
  if spawnTimer st + 1 >=? spawnInterval
  then enemies (spawnEnemy st) else enemies st.

(** The state [update] has built when it enters the collision loop. *)
Definition beforeCollision (st : Game) : Game :=
  let st := set_score (score st + Math_floor (speed st / 1.5)%float) st in
  let st := if Z.rem (score st) 1000 =? 0
            then set_speed (speed st + 0.2)%float st else st in
  let st := set_player
              (Player.set_x (laneCenter (layout st) (Player.lane (player st)))
                            (player st)) st in
  let st := set_spawnTimer (spawnTimer st + 1) st in
  let st := if spawnTimer st >=? spawnInterval
            then spawnEnemy (set_spawnTimer 0 st) else st in
  set_enemies
    (enemiesLoop (layout st) (speed st)
                 (List.length (enemies st)) (enemies st)) st.

(** An obstacle of the pool of [st], as the next [n] ticks move it: each
    tick adds to its [y] the speed that tick ends with, plus 1. *)
Fixpoint track (st : Game) (e : Enemy.t) (n : nat) : Enemy.t :=
  match n with
  | O => e
  | S k => track (gameLoop st)
                 (moveEnemy (layout st) (speed (gameLoop st)) e) k
  end.

(** The obstacle is on the screen after each of the next [n] ticks. *)
Fixpoint onScreenFor (st : Game) (e : Enemy.t) (n : nat) : bool :=
  match n with
  | O => true
  | S k =>
      let e' := moveEnemy (layout st) (speed (gameLoop st)) e in
      negb (offScreen (layout st) e') && onScreenFor (gameLoop st) e' k
  end.

(** The tick executes [speed += 0.2]: the game is running and the score
    the tick reaches is a multiple of 1000. *)
Definition speedsUp (st : Game) : bool :=
  running st
  && (Z.rem (score st + Math_floor (speed st / 1.5)%float) 1000 =? 0).

(** The number of ticks, among the next [n], that execute [speed += 0.2]. *)
Fixpoint speedUpCount (n : nat) (st : Game) : nat :=
  match n with
  | O => O
  | S k => ((if speedsUp st then 1 else 0) + speedUpCount k (gameLoop st))%nat
  end.

(** [speed] after [k] executions of [speed += 0.2]. *)
Fixpoint speedUps (k : nat) (s : float) : float :=
  match k with
  | O => s
  | S j => speedUps j (s + 0.2)%float
  end.

(** Each of the first [n] executions of [speed += 0.2] from [s] on leaves
    a number at least as large as the one it found. *)
Fixpoint speedUpsGrow (n : nat) (s : float) : bool :=
  match n with
  | O => true
  | S j => Qle_bool (value s) (value (s + 0.2)%float)
           && is_finite (s + 0.2)%float
           && speedUpsGrow j (s + 0.2)%float
  end.

(** ** The speed on the HUD *)

(** [Math.round] of a finite double: the nearest integer, a half going up. *)
Definition Math_round (x : float) : Z := Qfloor (value x + (1 # 2)).

(** [Math.round(speed * 10) / 10], the number [drawHUD] writes as speed. *)
Definition hudSpeed (s : float) : float :=
  (of_Z (Math_round (s * 10)%float) / 10)%float.

(** ** Sample states *)

Definition zeroRandom (n : nat) : float := 0%float.

(** The page on a canvas of 480 by 640 after its first [resetGame]. *)
Definition started : Game := resetGame (game0 480 640 true zeroRandom).

(** One obstacle in lane 0 at [y = -70], the player in lane 1. *)
Definition oneObstacle : Game :=
  set_enemies [Enemy.mk 0 120 (-70) 40 70] started.

(** A canvas 270 high, the speed after two increases, one obstacle at
    [y = -70]; the score is odd and grows by 2 a tick. *)
Definition lowCanvas : Game :=
  let st := resetGame (game0 480 270 true zeroRandom) in
  set_score 1
    (set_speed (speedUps 2 3)
       (set_enemies [Enemy.mk 0 120 (-70) 40 70] st)).

End B64.

(** * The tick on doubles: what each step writes *)

Lemma b64_endGame_frame (st : B64.Game) :
  B64.layout (B64.endGame st) = B64.layout st /\
  B64.score (B64.endGame st) = B64.score st /\
  B64.speed (B64.endGame st) = B64.speed st /\
  B64.player (B64.endGame st) = B64.player st /\
  B64.enemies (B64.endGame st) = B64.enemies st /\
  B64.spawnTimer (B64.endGame st) = B64.spawnTimer st /\
  B64.stripeOffset (B64.endGame st) = B64.stripeOffset st /\
  B64.animationFrameId (B64.endGame st) = B64.animationFrameId st.
Proof.
  unfold B64.endGame; simpl.
  destruct (B64.score st >? B64.highScore st); simpl;
    [destruct (B64.hasSetHighScore (B64.host st)) |]; simpl; repeat split.
Qed.

Lemma b64_collisionLoop_cases (es : list B64.Enemy.t) (st : B64.Game) :
  B64.collisionLoop es st = st \/ B64.collisionLoop es st = B64.endGame st.
Proof.
  induction es as [|e rest IH]; simpl; [now left|].
  destruct (B64.overlaps (B64.player st) e); [now right | exact IH].
Qed.

Lemma b64_collisionLoop_frame (es : list B64.Enemy.t) (st : B64.Game) :
  B64.layout (B64.collisionLoop es st) = B64.layout st /\
  B64.score (B64.collisionLoop es st) = B64.score st /\
  B64.speed (B64.collisionLoop es st) = B64.speed st /\
  B64.player (B64.collisionLoop es st) = B64.player st /\
  B64.enemies (B64.collisionLoop es st) = B64.enemies st /\
  B64.spawnTimer (B64.collisionLoop es st) = B64.spawnTimer st /\
  B64.stripeOffset (B64.collisionLoop es st) = B64.stripeOffset st /\
  B64.animationFrameId (B64.collisionLoop es st) = B64.animationFrameId st.
Proof.
  destruct (b64_collisionLoop_cases es st) as [-> | ->];
    [repeat split | apply b64_endGame_frame].
Qed.

Lemma b64_update_running (st : B64.Game) :
  B64.running st = true ->
  B64.update st =
  let st1 := B64.beforeCollision st in
  let st2 := B64.collisionLoop (B64.enemies st1) st1 in
  B64.set_stripeOffset (B64.stripeOffset st2 + B64.speed st2)%float st2.
Proof.
  intros Hr. unfold B64.update. rewrite Hr. reflexivity.
Qed.

Lemma b64_update_not_running (st : B64.Game) :
  B64.running st = false -> B64.update st = st.
Proof.
  intros Hr. unfold B64.update. rewrite Hr. reflexivity.
Qed.

Lemma b64_beforeCollision_fields (st : B64.Game) :
  B64.layout (B64.beforeCollision st) = B64.layout st /\
  B64.running (B64.beforeCollision st) = B64.running st /\
  B64.score (B64.beforeCollision st) =
    B64.score st + B64.Math_floor (B64.speed st / 1.5)%float /\
  B64.speed (B64.beforeCollision st) =
    (if Z.rem (B64.score st + B64.Math_floor (B64.speed st / 1.5)%float) 1000
        =? 0
     then (B64.speed st + 0.2)%float else B64.speed st) /\
  B64.stripeOffset (B64.beforeCollision st) = B64.stripeOffset st /\
  B64.player (B64.beforeCollision st) =
    B64.Player.set_x
      (B64.laneCenter (B64.layout st) (B64.Player.lane (B64.player st)))
      (B64.player st).
Proof.
  unfold B64.beforeCollision; simpl.
  destruct (Z.rem _ 1000 =? 0); simpl;
    destruct (_ >=? spawnInterval); simpl; repeat split.
Qed.

Lemma b64_update_fields (st : B64.Game) :
  B64.running st = true ->
  B64.layout (B64.update st) = B64.layout (B64.beforeCollision st) /\
  B64.score (B64.update st) = B64.score (B64.beforeCollision st) /\
  B64.speed (B64.update st) = B64.speed (B64.beforeCollision st) /\
  B64.enemies (B64.update st) = B64.enemies (B64.beforeCollision st) /\
  B64.player (B64.update st) = B64.player (B64.beforeCollision st) /\
  B64.stripeOffset (B64.update st) =
    (B64.stripeOffset (B64.beforeCollision st)
     + B64.speed (B64.beforeCollision st))%float.
Proof.
  intros Hr. rewrite (b64_update_running st Hr). cbv zeta.
  remember (B64.beforeCollision st) as st1 eqn:E1.
  destruct (b64_collisionLoop_frame (B64.enemies st1) st1)
    as (Hl & Hsc & Hsp & Hpl & Hen & _ & Hso & _).
  remember (B64.collisionLoop (B64.enemies st1) st1) as st2 eqn:E2.
  simpl. rewrite Hl, Hsc, Hsp, Hpl, Hen, Hso. repeat split.
Qed.

Lemma b64_update_score (st : B64.Game) :
  B64.running st = true ->
  B64.score (B64.update st) =
  B64.score st + B64.Math_floor (B64.speed st / 1.5)%float.
Proof.
  intros Hr. destruct (b64_update_fields st Hr) as (_ & -> & _).
  apply b64_beforeCollision_fields.
Qed.

Lemma b64_update_speed (st : B64.Game) :
  B64.running st = true ->
  B64.speed (B64.update st) =
  if Z.rem (B64.score st + B64.Math_floor (B64.speed st / 1.5)%float) 1000
     =? 0
  then (B64.speed st + 0.2)%float else B64.speed st.
Proof.
  intros Hr. destruct (b64_update_fields st Hr) as (_ & _ & -> & _).
  apply b64_beforeCollision_fields.
Qed.

Lemma b64_update_stripeOffset (st : B64.Game) :
  B64.running st = true ->
  B64.stripeOffset (B64.update st) =
  (B64.stripeOffset st + B64.speed (B64.update st))%float.
Proof.
  intros Hr.
  destruct (b64_update_fields st Hr) as (_ & _ & -> & _ & _ & ->).
  destruct (b64_beforeCollision_fields st) as (_ & _ & _ & _ & -> & _).
  reflexivity.
Qed.

Lemma b64_update_layout (st : B64.Game) :
  B64.layout (B64.update st) = B64.layout st.
Proof.
  destruct (B64.running st) eqn:Hr.
  - destruct (b64_update_fields st Hr) as (-> & _).
    apply b64_beforeCollision_fields.
  - now rewrite (b64_update_not_running st Hr).
Qed.

Lemma b64_update_player (st : B64.Game) :
  B64.running st = true ->
  B64.player (B64.update st) =
  B64.Player.set_x
    (B64.laneCenter (B64.layout st) (B64.Player.lane (B64.player st)))
    (B64.player st).
Proof.
  intros Hr. destruct (b64_update_fields st Hr) as (_ & _ & _ & _ & -> & _).
  apply b64_beforeCollision_fields.
Qed.

(** ** The loop over the obstacle pool *)

Lemma b64_enemyStep_at (l : B64.Layout) (s : float)
    (pre suf : list B64.Enemy.t) (e : B64.Enemy.t) :
  B64.enemyStep l s (List.length pre) (pre ++ e :: suf) =
  if B64.offScreen l (B64.moveEnemy l s e) then pre ++ suf
  else pre ++ B64.moveEnemy l s e :: suf.
Proof.
  unfold B64.enemyStep, array_set, splice1.
  rewrite nth_error_app2, Nat.sub_diag by apply Nat.le_refl. cbn [nth_error].
  fold (B64.moveEnemy l s e). fold (B64.offScreen l (B64.moveEnemy l s e)).
  assert (Hf : forall a : B64.Enemy.t,
             firstn (List.length pre) (pre ++ a :: suf) = pre).
  { intros a. rewrite firstn_app, Nat.sub_diag, firstn_all. cbn.
    apply app_nil_r. }
  assert (Hs : forall a : B64.Enemy.t,
             skipn (S (List.length pre)) (pre ++ a :: suf) = suf).
  { intros a. rewrite skipn_app.
    rewrite (skipn_all2 pre) by (apply Nat.le_succ_diag_r).
    replace (S (List.length pre) - List.length pre)%nat with 1%nat by lia.
    reflexivity. }
  rewrite Hf, Hs. destruct (B64.offScreen l (B64.moveEnemy l s e));
    [|reflexivity].
  rewrite Hf, Hs. reflexivity.
Qed.

Lemma b64_enemiesLoop_prefix (l : B64.Layout) (s : float)
    (pre suf : list B64.Enemy.t) :
  B64.enemiesLoop l s (List.length pre) (pre ++ suf) =
  filter (fun o => negb (B64.offScreen l o)) (map (B64.moveEnemy l s) pre)
  ++ suf.
Proof.
  revert suf. induction pre as [|e pre IH] using rev_ind; intros suf.
  - reflexivity.
  - rewrite length_app, Nat.add_comm.
    cbn [List.length Nat.add B64.enemiesLoop].
    rewrite <- app_assoc. cbn [app]. rewrite b64_enemyStep_at.
    rewrite map_app, filter_app. cbn [map filter].
    destruct (B64.offScreen l (B64.moveEnemy l s e)); cbn [negb];
      rewrite IH, <- app_assoc; reflexivity.
Qed.

(** The reverse loop with its in-place removal visits every obstacle once:
    it moves each one and drops those that are then off the screen. *)
Lemma b64_enemiesLoop_spec (l : B64.Layout) (s : float)
    (es : list B64.Enemy.t) :
  B64.enemiesLoop l s (List.length es) es =
  filter (fun o => negb (B64.offScreen l o)) (map (B64.moveEnemy l s) es).
Proof.
  rewrite <- (app_nil_r es) at 2. rewrite b64_enemiesLoop_prefix.
  apply app_nil_r.
Qed.

Lemma b64_beforeCollision_enemies (st : B64.Game) :
  B64.enemies (B64.beforeCollision st) =
  filter (fun o => negb (B64.offScreen (B64.layout st) o))
         (map (B64.moveEnemy (B64.layout st)
                             (B64.speed (B64.beforeCollision st)))
              (B64.afterSpawn st)).
Proof.
  destruct (b64_beforeCollision_fields st) as (_ & _ & _ & -> & _).
  unfold B64.beforeCollision, B64.afterSpawn; simpl.
  destruct (Z.rem _ 1000 =? 0); simpl;
    destruct (_ >=? spawnInterval); simpl;
    rewrite b64_enemiesLoop_spec; reflexivity.
Qed.

Lemma b64_update_pool (st : B64.Game) :
  B64.running st = true ->
  B64.enemies (B64.update st) =
  filter (fun o => negb (B64.offScreen (B64.layout st) o))
         (map (B64.moveEnemy (B64.layout st) (B64.speed (B64.update st)))
              (B64.afterSpawn st)).
Proof.
  intros Hr. destruct (b64_update_fields st Hr) as (_ & _ & Hsp & -> & _).
  rewrite Hsp. apply b64_beforeCollision_enemies.
Qed.

Lemma b64_afterSpawn_incl (st : B64.Game) (e : B64.Enemy.t) :
  In e (B64.enemies st) -> In e (B64.afterSpawn st).
Proof.
  intros He. unfold B64.afterSpawn.
  destruct (_ >=? spawnInterval); [|exact He].
  unfold B64.spawnEnemy, B64.Math_random; simpl.
  apply in_or_app. now left.
Qed.

(** ** Ticks *)

Lemma b64_gameLoop_fields (st : B64.Game) :
  B64.layout (B64.gameLoop st) = B64.layout st /\
  B64.speed (B64.gameLoop st) =
    (if B64.running st then B64.speed (B64.update st) else B64.speed st) /\
  B64.enemies (B64.gameLoop st) =
    (if B64.running st then B64.enemies (B64.update st)
     else B64.enemies st) /\
  B64.running (B64.gameLoop st) =
    (if B64.running st then B64.running (B64.update st) else false).
Proof.
  unfold B64.gameLoop. destruct (B64.running st) eqn:Hr; simpl.
  - rewrite b64_update_layout. repeat split.
  - rewrite Hr. repeat split.
Qed.

Lemma b64_gameLoop_speed_cases (st : B64.Game) :
  B64.speed (B64.gameLoop st) = B64.speed st \/
  B64.speed (B64.gameLoop st) = (B64.speed st + 0.2)%float.
Proof.
  destruct (b64_gameLoop_fields st) as (_ & -> & _).
  destruct (B64.running st) eqn:Hr; [|now left].
  rewrite (b64_update_speed st Hr).
  destruct (Z.rem _ 1000 =? 0); [now right | now left].
Qed.

Lemma b64_ticks_add (m n : nat) (st : B64.Game) :
  B64.ticks (m + n) st = B64.ticks n (B64.ticks m st).
Proof.
  revert st. induction m as [|m IH]; intros st; simpl; [reflexivity|].
  apply IH.
Qed.

Lemma b64_ticks_succ_r (n : nat) (st : B64.Game) :
  B64.ticks (S n) st = B64.gameLoop (B64.ticks n st).
Proof.
  replace (S n) with (n + 1)%nat by lia. now rewrite b64_ticks_add.
Qed.

Lemma b64_ticks_layout (n : nat) (st : B64.Game) :
  B64.layout (B64.ticks n st) = B64.layout st.
Proof.
  revert st. induction n as [|n IH]; intros st; simpl; [reflexivity|].
  rewrite IH. apply b64_gameLoop_fields.
Qed.

(** A tick never sets [running]: a game that runs after [n] ticks ran
    before each of them. *)
Lemma b64_ticks_running_start (n : nat) (st : B64.Game) :
  B64.running (B64.ticks n st) = true -> B64.running st = true.
Proof.
  revert st. induction n as [|n IH]; intros st Hn; [exact Hn|].
  simpl in Hn. apply IH in Hn.
  destruct (b64_gameLoop_fields st) as (_ & _ & _ & Hrun).
  rewrite Hrun in Hn. destruct (B64.running st); [reflexivity | discriminate].
Qed.

Lemma b64_ticks_running_gameLoop (n : nat) (st : B64.Game) :
  B64.running (B64.ticks (S n) st) = true ->
  B64.running (B64.ticks n st) = true.
Proof.
  rewrite b64_ticks_succ_r. apply (b64_ticks_running_start 1).
Qed.

(** ** An obstacle along the ticks *)

Lemma b64_gameLoop_pool (st : B64.Game) :
  B64.running st = true ->
  B64.enemies (B64.gameLoop st) =
  filter (fun o => negb (B64.offScreen (B64.layout st) o))
         (map (B64.moveEnemy (B64.layout st) (B64.speed (B64.gameLoop st)))
              (B64.afterSpawn st)).
Proof.
  intros Hr. destruct (b64_gameLoop_fields st) as (_ & -> & -> & _).
  rewrite Hr. now apply b64_update_pool.
Qed.

Lemma b64_gameLoop_In (st : B64.Game) (e : B64.Enemy.t) :
  B64.running st = true -> In e (B64.enemies st) ->
  let e' := B64.moveEnemy (B64.layout st) (B64.speed (B64.gameLoop st)) e in
  (B64.offScreen (B64.layout st) e' = false ->
   In e' (B64.enemies (B64.gameLoop st))) /\
  (B64.offScreen (B64.layout st) e' = true ->
   ~ In e' (B64.enemies (B64.gameLoop st))).
Proof.
  intros Hr He e'. rewrite (b64_gameLoop_pool st Hr). split.
  - intros Hon. apply filter_In. split.
    + apply in_map, b64_afterSpawn_incl, He.
    + now rewrite Hon.
  - intros Hoff Hin. apply filter_In in Hin. destruct Hin as [_ Hon].
    rewrite Hoff in Hon. discriminate.
Qed.

Lemma b64_track_succ_r (n : nat) (st : B64.Game) (e : B64.Enemy.t) :
  B64.track st e (S n) =
  B64.moveEnemy (B64.layout st) (B64.speed (B64.ticks (S n) st))
                (B64.track st e n).
Proof.
  revert st e. induction n as [|n IH]; intros st e; [reflexivity|].
  change (B64.track st e (S (S n)))
    with (B64.track (B64.gameLoop st)
            (B64.moveEnemy (B64.layout st) (B64.speed (B64.gameLoop st)) e)
            (S n)).
  rewrite IH.
  destruct (b64_gameLoop_fields st) as (-> & _). reflexivity.
Qed.

Lemma b64_track_lane (n : nat) (st : B64.Game) (e : B64.Enemy.t) :
  B64.Enemy.lane (B64.track st e n) = B64.Enemy.lane e.
Proof.
  revert st e. induction n as [|n IH]; intros st e; [reflexivity|].
  simpl. now rewrite IH.
Qed.

Lemma b64_onScreenFor_succ_r (n : nat) (st : B64.Game) (e : B64.Enemy.t) :
  B64.onScreenFor st e (S n) =
  B64.onScreenFor st e n
  && negb (B64.offScreen (B64.layout st) (B64.track st e (S n))).
Proof.
  revert st e. induction n as [|n IH]; intros st e.
  - simpl. now rewrite andb_true_r.
  - change (B64.onScreenFor st e (S (S n)))
      with (let e' := B64.moveEnemy (B64.layout st)
                        (B64.speed (B64.gameLoop st)) e in
            negb (B64.offScreen (B64.layout st) e')
            && B64.onScreenFor (B64.gameLoop st) e' (S n)).
    cbv zeta. rewrite IH.
    destruct (b64_gameLoop_fields st) as (-> & _).
    change (B64.onScreenFor st e (S n))
      with (let e' := B64.moveEnemy (B64.layout st)
                        (B64.speed (B64.gameLoop st)) e in
            negb (B64.offScreen (B64.layout st) e')
            && B64.onScreenFor (B64.gameLoop st) e' n).
    cbv zeta. now rewrite andb_assoc.
Qed.

(** An obstacle that is on the screen after each of [n] ticks of a game
    that keeps running is in the pool after them. *)
Lemma b64_track_In (n : nat) (st : B64.Game) (e : B64.Enemy.t) :
  In e (B64.enemies st) ->
  (n = O \/ B64.running (B64.ticks (pred n) st) = true) ->
  B64.onScreenFor st e n = true ->
  In (B64.track st e n) (B64.enemies (B64.ticks n st)).
Proof.
  intros He. induction n as [|n IH]; intros Hrun Hon; [exact He|].
  destruct Hrun as [Hrun | Hrun]; [discriminate|]. simpl in Hrun.
  rewrite b64_onScreenFor_succ_r in Hon.
  apply andb_true_iff in Hon. destruct Hon as [Hon Hlast].
  apply negb_true_iff in Hlast.
  assert (Hin : In (B64.track st e n) (B64.enemies (B64.ticks n st))).
  { apply IH; [|exact Hon]. destruct n as [|n]; [now left | right].
    simpl. now apply b64_ticks_running_gameLoop. }
  rewrite b64_track_succ_r, b64_ticks_succ_r.
  rewrite b64_track_succ_r, b64_ticks_succ_r in Hlast.
  rewrite <- (b64_ticks_layout n st) in Hlast |- *.
  now apply (b64_gameLoop_In (B64.ticks n st) (B64.track st e n) Hrun Hin).
Qed.

(** ** The speed along the ticks *)

Lemma b64_speedUps_succ_r (k : nat) (s : float) :
  B64.speedUps (S k) s = (B64.speedUps k s + 0.2)%float.
Proof.
  revert s. induction k as [|k IH]; intros s; [reflexivity|].
  change (B64.speedUps (S (S k)) s) with (B64.speedUps (S k) (s + 0.2)%float).
  now rewrite IH.
Qed.

Lemma b64_speedUps_add (j k : nat) (s : float) :
  B64.speedUps k (B64.speedUps j s) = B64.speedUps (j + k) s.
Proof.
  revert s. induction j as [|j IH]; intros s; [reflexivity|]. simpl.
  apply IH.
Qed.

Lemma b64_gameLoop_speedsUp (st : B64.Game) :
  B64.speed (B64.gameLoop st) =
  if B64.speedsUp st then (B64.speed st + 0.2)%float else B64.speed st.
Proof.
  destruct (b64_gameLoop_fields st) as (_ & -> & _). unfold B64.speedsUp.
  destruct (B64.running st) eqn:Hr; [|reflexivity].
  rewrite (b64_update_speed st Hr). reflexivity.
Qed.

(** After [n] ticks [speed] is what the executions of [speed += 0.2] in
    them have made of it: nothing else has written it. *)
Lemma b64_ticks_speedUps (n : nat) (st : B64.Game) :
  B64.speed (B64.ticks n st) =
  B64.speedUps (B64.speedUpCount n st) (B64.speed st).
Proof.
  revert st. induction n as [|n IH]; intros st; [reflexivity|].
  cbn [B64.ticks B64.speedUpCount]. rewrite IH, b64_gameLoop_speedsUp.
  destruct (B64.speedsUp st); reflexivity.
Qed.

Lemma b64_speedUpCount_le (n : nat) (st : B64.Game) :
  (B64.speedUpCount n st <= n)%nat.
Proof.
  revert st. induction n as [|n IH]; intros st; [apply Nat.le_refl|].
  cbn [B64.speedUpCount]. specialize (IH (B64.gameLoop st)).
  destruct (B64.speedsUp st); lia.
Qed.

Lemma b64_speedUpCount_add (m j : nat) (st : B64.Game) :
  B64.speedUpCount (m + j) st =
  (B64.speedUpCount m st + B64.speedUpCount j (B64.ticks m st))%nat.
Proof.
  revert st. induction m as [|m IH]; intros st; [reflexivity|].
  cbn [Nat.add B64.speedUpCount B64.ticks]. rewrite IH. lia.
Qed.

Lemma b64_speedUpsGrow_sound (n : nat) (s : float) :
  B64.speedUpsGrow n s = true ->
  forall i j : nat, (i <= j)%nat -> (j <= n)%nat ->
    (B64.value (B64.speedUps i s) <= B64.value (B64.speedUps j s))%Q /\
    (j <> O -> is_finite (B64.speedUps j s) = true).
Proof.
  revert s. induction n as [|n IH]; intros s Hg i j Hij Hjn.
  - replace j with O by lia. replace i with O by lia.
    split; [apply Qle_refl | intros Hj; now elim Hj].
  - simpl in Hg. apply andb_true_iff in Hg. destruct Hg as [Hg Hrest].
    apply andb_true_iff in Hg. destruct Hg as [Hle Hfin].
    apply Qle_bool_iff in Hle.
    destruct j as [|j]; [replace i with O by lia;
                         split; [apply Qle_refl | intros Hj; now elim Hj]|].
    destruct i as [|i].
    + split.
      * apply Qle_trans with (B64.value (s + 0.2)%float); [exact Hle|].
        apply (IH _ Hrest O j); lia.
      * intros _. destruct j as [|j]; [exact Hfin|].
        apply (IH _ Hrest O (S j)); [lia | lia | discriminate].
    + split.
      * apply (IH _ Hrest i j); lia.
      * intros _. destruct j as [|j]; [exact Hfin|].
        apply (IH _ Hrest O (S j)); [lia | lia | discriminate].
Qed.

(** * Properties *)

(** ** Comparisons *)

Lemma Qltb_true (a b : Q) : Qltb a b = true <-> (a < b)%Q.
Proof.
  unfold Qltb. rewrite negb_true_iff, <- not_true_iff_false, Qle_bool_iff.
  split; [apply Qnot_le_lt | apply Qlt_not_le].
Qed.

Lemma Qltb_false (a b : Q) : Qltb a b = false <-> (b <= a)%Q.
Proof.
  unfold Qltb. rewrite negb_false_iff. apply Qle_bool_iff.
Qed.

Lemma Qgtb_true (a b : Q) : Qgtb a b = true <-> (b < a)%Q.
Proof. apply Qltb_true. Qed.

Lemma Qgtb_false (a b : Q) : Qgtb a b = false <-> (a <= b)%Q.
Proof. apply Qltb_false. Qed.

(** ** What [endGame] and the collision loop leave alone *)

Lemma endGame_frame (st : Game) :
  layout (endGame st) = layout st /\ score (endGame st) = score st /\
  speed (endGame st) = speed st /\ player (endGame st) = player st /\
  enemies (endGame st) = enemies st /\
  spawnTimer (endGame st) = spawnTimer st /\
  stripeOffset (endGame st) = stripeOffset st /\
  lastMoveTime (endGame st) = lastMoveTime st /\
  animationFrameId (endGame st) = animationFrameId st.
Proof.
  unfold endGame; simpl.
  destruct (score st >? highScore st); simpl;
    [destruct (hasSetHighScore (host st)) |]; simpl; repeat split.
Qed.

Lemma collisionLoop_cases (es : list Enemy.t) (st : Game) :
  collisionLoop es st = st \/ collisionLoop es st = endGame st.
Proof.
  induction es as [|e rest IH]; simpl; [now left|].
  destruct (overlaps (player st) e); [now right | exact IH].
Qed.

Lemma collisionLoop_frame (es : list Enemy.t) (st : Game) :
  layout (collisionLoop es st) = layout st /\
  score (collisionLoop es st) = score st /\
  speed (collisionLoop es st) = speed st /\
  player (collisionLoop es st) = player st /\
  enemies (collisionLoop es st) = enemies st /\
  spawnTimer (collisionLoop es st) = spawnTimer st /\
  stripeOffset (collisionLoop es st) = stripeOffset st /\
  lastMoveTime (collisionLoop es st) = lastMoveTime st /\
  animationFrameId (collisionLoop es st) = animationFrameId st.
Proof.
  destruct (collisionLoop_cases es st) as [-> | ->];
    [repeat split | apply endGame_frame].
Qed.

Lemma update_running (st : Game) :
  running st = true ->
  update st =
  let st1 := beforeCollision st in
  let st2 := collisionLoop (enemies st1) st1 in
  set_stripeOffset (stripeOffset st2 + speed st2)%Q st2.
Proof.
  intros Hr. unfold update. rewrite Hr. reflexivity.
Qed.

Lemma beforeCollision_score (st : Game) :
  score (beforeCollision st) = score st + Math_floor (speed st / (3 # 2)).
Proof.
  unfold beforeCollision; simpl.
  destruct (Z.rem _ 1000 =? 0); simpl;
    destruct (_ >=? spawnInterval); reflexivity.
Qed.

Lemma beforeCollision_speed (st : Game) :
  speed (beforeCollision st) =
  if Z.rem (score st + Math_floor (speed st / (3 # 2))) 1000 =? 0
  then (speed st + (1 # 5))%Q else speed st.
Proof.
  unfold beforeCollision; simpl.
  destruct (Z.rem _ 1000 =? 0); simpl;
    destruct (_ >=? spawnInterval); reflexivity.
Qed.

Lemma update_fields (st : Game) :
  running st = true ->
  score (update st) = score (beforeCollision st) /\
  speed (update st) = speed (beforeCollision st) /\
  enemies (update st) = enemies (beforeCollision st) /\
  player (update st) = player (beforeCollision st) /\
  spawnTimer (update st) = spawnTimer (beforeCollision st) /\
  stripeOffset (update st) =
    (stripeOffset (beforeCollision st) + speed (beforeCollision st))%Q.
Proof.
  intros Hr. rewrite (update_running st Hr). cbv zeta.
  remember (beforeCollision st) as st1 eqn:E1.
  destruct (collisionLoop_frame (enemies st1) st1)
    as (_ & Hsc & Hsp & Hpl & Hen & Htm & Hso & _).
  remember (collisionLoop (enemies st1) st1) as st2 eqn:E2.
  simpl. rewrite Hsc, Hsp, Hpl, Hen, Htm, Hso. repeat split.
Qed.

Lemma update_score (st : Game) :
  running st = true ->
  score (update st) = score st + Math_floor (speed st / (3 # 2)).
Proof.
  intros Hr. destruct (update_fields st Hr) as (-> & _).
  apply beforeCollision_score.
Qed.

Lemma update_speed (st : Game) :
  running st = true ->
  speed (update st) =
  if Z.rem (score st + Math_floor (speed st / (3 # 2))) 1000 =? 0
  then (speed st + (1 # 5))%Q else speed st.
Proof.
  intros Hr. destruct (update_fields st Hr) as (_ & -> & _).
  apply beforeCollision_speed.
Qed.

Lemma beforeCollision_stripeOffset (st : Game) :
  stripeOffset (beforeCollision st) = stripeOffset st.
Proof.
  unfold beforeCollision; simpl.
  destruct (Z.rem _ 1000 =? 0); simpl;
    destruct (_ >=? spawnInterval); reflexivity.
Qed.

Lemma update_stripeOffset (st : Game) :
  running st = true ->
  stripeOffset (update st) = (stripeOffset st + speed (update st))%Q.
Proof.
  intros Hr. destruct (update_fields st Hr) as (_ & -> & _ & _ & _ & ->).
  now rewrite beforeCollision_stripeOffset.
Qed.

Lemma update_not_running (st : Game) :
  running st = false -> update st = st.
Proof.
  intros Hr. unfold update. rewrite Hr. reflexivity.
Qed.

(** ** A stopped game *)

(** C10.  When [running] is false a call of [update] returns the state it
    was given: every variable, the obstacle pool and the player included,
    is left as it was. *)
Theorem update_stopped_noop (st : Game) :
  running st = false -> update st = st.
Proof. exact (update_not_running st). Qed.


(** ** Score and speed along a tick *)

(** C1.  On doubles.  A tick executed while [running] holds, at a finite
    speed, first adds [floor(speed / 1.5)] to [score]; then, if the new
    score is an exact multiple of 1000, [speed] becomes [speed + 0.2], the
    double that sum rounds to, and if it is not, [speed] keeps its value.
    So the tick changes [speed] only when the new score is a multiple of
    1000.  Nothing later in the tick writes [speed]: the value left by the
    check is the one [stripeOffset] is advanced by and the one the tick
    ends with. *)
Theorem update_score_then_speed (st : B64.Game) :
  B64.running st = true ->
  is_finite (B64.speed st / 1.5)%float = true ->
  let score' := B64.score st + B64.Math_floor (B64.speed st / 1.5)%float in
  B64.score (B64.update st) = score' /\
  (Z.rem score' 1000 = 0 ->
   B64.speed (B64.update st) = (B64.speed st + 0.2)%float) /\
  (Z.rem score' 1000 <> 0 -> B64.speed (B64.update st) = B64.speed st) /\
  (B64.speed (B64.update st) <> B64.speed st -> Z.rem score' 1000 = 0) /\
  B64.stripeOffset (B64.update st) =
    (B64.stripeOffset st + B64.speed (B64.update st))%float.
Proof.
  intros Hr _ score'.
  pose proof (b64_update_score st Hr) as Hsc.
  pose proof (b64_update_speed st Hr) as Hsp.
  pose proof (b64_update_stripeOffset st Hr) as Hso.
  fold score' in Hsc, Hsp.
  destruct (Z.eqb_spec (Z.rem score' 1000) 0) as [E | E].
  - repeat split; auto; contradiction.
  - repeat split; auto; try contradiction;
      try (intros Hne; now elim Hne).
Qed.

Lemma gameLoop_score (st : Game) :
  score (gameLoop st) = if running st then score (update st) else score st.
Proof. unfold gameLoop. destruct (running st); reflexivity. Qed.

Lemma gameLoop_speed (st : Game) :
  speed (gameLoop st) = if running st then speed (update st) else speed st.
Proof. unfold gameLoop. destruct (running st); reflexivity. Qed.

Lemma gameLoop_running_false (st : Game) :
  running st = false -> running (gameLoop st) = false.
Proof. intros Hr. unfold gameLoop. rewrite Hr. exact Hr. Qed.

Lemma gameLoop_speed_cases (st : Game) :
  speed (gameLoop st) = speed st \/
  speed (gameLoop st) = (speed st + (1 # 5))%Q.
Proof.
  rewrite gameLoop_speed. destruct (running st) eqn:Hr; [|now left].
  rewrite (update_speed st Hr).
  destruct (Z.rem _ 1000 =? 0); [now right | now left].
Qed.

Lemma gameLoop_speed_le (st : Game) : (speed st <= speed (gameLoop st))%Q.
Proof.
  destruct (gameLoop_speed_cases st) as [-> | ->]; lra.
Qed.

Lemma ticks_add (m n : nat) (st : Game) :
  ticks (m + n) st = ticks n (ticks m st).
Proof.
  revert st. induction m as [|m IH]; intros st; simpl; [reflexivity|].
  apply IH.
Qed.

Lemma ticks_speed_le (n : nat) (st : Game) :
  (speed st <= speed (ticks n st))%Q.
Proof.
  revert st. induction n as [|n IH]; intros st; simpl; [lra|].
  apply Qle_trans with (speed (gameLoop st)); [apply gameLoop_speed_le | apply IH].
Qed.

(** C9.  A tick leaves [speed] as it is or replaces it by [speed + 0.2],
    the double the script stores; so after [n] ticks [speed] is what the
    additions executed in them, at most [n], have made of it, and nothing
    else has written it.  From the 3 of a restart on, as long as no more
    than 20000 additions have been executed, [speed] is a finite double
    and a later tick never leaves a smaller one than an earlier tick.  In
    the exact model, where the sum is [speed + 1/5], [speed] never
    decreases along any number of ticks. *)
Theorem speed_never_decreases (b : B64.Game) (st : Game) :
  (B64.speed (B64.gameLoop b) = B64.speed b \/
   B64.speed (B64.gameLoop b) = (B64.speed b + 0.2)%float) /\
  (forall n : nat,
     (B64.speedUpCount n b <= n)%nat /\
     B64.speed (B64.ticks n b) =
     B64.speedUps (B64.speedUpCount n b) (B64.speed b)) /\
  (B64.speed b = 3%float ->
   forall m n : nat,
     (m <= n)%nat -> Z.of_nat (B64.speedUpCount n b) <= 20000 ->
     is_finite (B64.speed (B64.ticks n b)) = true /\
     (B64.value (B64.speed (B64.ticks m b))
      <= B64.value (B64.speed (B64.ticks n b)))%Q) /\
  (speed st <= speed (gameLoop st))%Q /\
  (forall m n : nat, (m <= n)%nat ->
     (speed (ticks m st) <= speed (ticks n st))%Q).
Proof.
  split; [apply b64_gameLoop_speed_cases|].
  split; [intros n; split;
          [apply b64_speedUpCount_le | apply b64_ticks_speedUps]|].
  split; [|split; [apply gameLoop_speed_le|]].
  - intros H3 m n Hmn Hn.
    assert (Hg : B64.speedUpsGrow (Z.to_nat 20000) 3 = true)
      by (vm_compute; reflexivity).
    rewrite !b64_ticks_speedUps, H3.
    assert (Hadd : B64.speedUpCount n b =
                   (B64.speedUpCount m b
                    + B64.speedUpCount (n - m) (B64.ticks m b))%nat).
    { rewrite <- b64_speedUpCount_add. f_equal. lia. }
    destruct (b64_speedUpsGrow_sound _ _ Hg (B64.speedUpCount m b)
                (B64.speedUpCount n b)) as [Hle Hfin]; [lia | lia |].
    split; [|exact Hle].
    destruct (B64.speedUpCount n b) as [|q]; [reflexivity | now apply Hfin].
  - intros m n Hmn. replace n with (m + (n - m))%nat by lia.
    rewrite ticks_add. apply ticks_speed_le.
Qed.

Lemma floor_speed_nonneg (s : Q) : (0 <= s)%Q -> 0 <= Math_floor (s / (3 # 2)).
Proof.
  intros Hs. unfold Math_floor.
  change 0 with (Qfloor 0). apply Qfloor_resp_le.
  apply Qle_shift_div_l; lra.
Qed.

Lemma gameLoop_score_le (st : Game) :
  (0 <= speed st)%Q -> score st <= score (gameLoop st).
Proof.
  intros Hs. rewrite gameLoop_score. destruct (running st) eqn:Hr; [|lia].
  rewrite (update_score st Hr). pose proof (floor_speed_nonneg _ Hs). lia.
Qed.

Lemma ticks_score_le (n : nat) (st : Game) :
  (0 <= speed st)%Q -> score st <= score (ticks n st).
Proof.
  revert st. induction n as [|n IH]; intros st Hs; simpl; [lia|].
  apply Z.le_trans with (score (gameLoop st)); [now apply gameLoop_score_le|].
  apply IH. apply Qle_trans with (speed st); [exact Hs | apply gameLoop_speed_le].
Qed.

Lemma ticks_stopped (n : nat) (st : Game) :
  running st = false ->
  running (ticks n st) = false /\ score (ticks n st) = score st.
Proof.
  revert st. induction n as [|n IH]; intros st Hr; simpl; [now split|].
  destruct (IH (gameLoop st) (gameLoop_running_false st Hr)) as [H1 H2].
  split; [exact H1|]. rewrite H2, gameLoop_score, Hr. reflexivity.
Qed.

(** The speed is at least 3 in every state the page reaches: the
    declarations give 3, [resetGame] gives 3, and nothing lowers it. *)
Lemma keydown_speed (now : Q) (key : string) (st : Game) :
  speed (keydown now key st) = speed st.
Proof.
  unfold keydown.
  destruct (Qltb (now - lastMoveTime st) minMoveInterval); [reflexivity|].
  destruct (isLeftKey key), (isRightKey key); reflexivity.
Qed.

Lemma resetGame_speed_ge_3 (st : Game) : (3 <= speed (resetGame st))%Q.
Proof.
  unfold resetGame. cbv zeta. simpl animationFrameId.
  destruct (animationFrameId st).
  - simpl. lra.
  - eapply Qle_trans; [|apply gameLoop_speed_le]. simpl. lra.
Qed.

Lemma step_speed_ge_3 (a : Action) (st : Game) :
  (3 <= speed st)%Q -> (3 <= speed (step a st))%Q.
Proof.
  intros Hs. destruct a as [|now key| |]; simpl.
  - apply Qle_trans with (speed st); [exact Hs | apply gameLoop_speed_le].
  - now rewrite keydown_speed.
  - apply resetGame_speed_ge_3.
  - destruct (endGame_frame st) as (_ & _ & -> & _). exact Hs.
Qed.

Lemma run_speed_ge_3 (acts : list Action) (st : Game) :
  (3 <= speed st)%Q -> (3 <= speed (run acts st))%Q.
Proof.
  revert st. induction acts as [|a rest IH]; intros st Hs; simpl.
  - exact Hs.
  - apply IH. now apply step_speed_ge_3.
Qed.

Lemma reachable_speed_ge_3 (cw ch : Q) (api : bool) (rnd : nat -> Q)
    (acts : list Action) :
  (3 <= speed (run acts (game0 cw ch api rnd)))%Q.
Proof. apply run_speed_ge_3. simpl. lra. Qed.

(** C8.  From a state whose speed is not negative (the page never has
    another one, see [reachable_speed_ge_3]), the score never decreases
    along a sequence of ticks.  Once [running] is false it stays false,
    and no tick, nor a direct call of [update], changes the score. *)
Theorem score_monotone_then_frozen (st : Game) :
  ((0 <= speed st)%Q ->
   forall m n : nat, (m <= n)%nat ->
     score (ticks m st) <= score (ticks n st)) /\
  (forall n : nat, running (ticks n st) = false ->
     score (update (ticks n st)) = score (ticks n st) /\
     forall k : nat, running (ticks (n + k) st) = false /\
                     score (ticks (n + k) st) = score (ticks n st)).
Proof.
  split.
  - intros Hs m n Hmn. replace n with (m + (n - m))%nat by lia.
    rewrite ticks_add. apply ticks_score_le.
    apply Qle_trans with (speed st); [exact Hs | apply ticks_speed_le].
  - intros n Hr. split.
    + now rewrite (update_not_running _ Hr).
    + intros k. rewrite ticks_add. now apply ticks_stopped.
Qed.


(** ** End of game *)

(** C5 (as the code has it).  [endGame] sets [running] to false and keeps
    the score.  If the score is strictly above the stored high score, the
    high score becomes the score, and [setHighScore] is called with it
    exactly when the host exposes [electronAPI.setHighScore]; if the score
    is equal or below, the high score is kept and no call is made. *)
Theorem endGame_high_score (st : Game) :
  running (endGame st) = false /\
  score (endGame st) = score st /\
  (score st > highScore st ->
     highScore (endGame st) = score st /\
     setHighScoreCalls (host (endGame st)) =
       if hasSetHighScore (host st)
       then setHighScoreCalls (host st) ++ [score st]
       else setHighScoreCalls (host st)) /\
  (score st <= highScore st ->
     highScore (endGame st) = highScore st /\
     setHighScoreCalls (host (endGame st)) = setHighScoreCalls (host st)).
Proof.
  unfold endGame; simpl.
  destruct (Z.gtb_spec (score st) (highScore st)) as [Hgt | Hle]; simpl.
  - destruct (hasSetHighScore (host st)); simpl;
      repeat split; auto; intros; lia.
  - repeat split; auto; intros; lia.
Qed.

(** ** Collision check *)

Lemma overlaps_spec (p : Player.t) (e : Enemy.t) :
  overlaps p e = true <->
  let px := (Player.x p - Player.w p / 2)%Q in
  let py := (Player.y p - Player.h p / 2)%Q in
  let ex := (Enemy.x e - Enemy.w e / 2)%Q in
  let ey := (Enemy.y e - Enemy.h e / 2)%Q in
  (px < ex + Enemy.w e /\ px + Player.w p > ex /\
   py < ey + Enemy.h e /\ py + Player.h p > ey)%Q.
Proof.
  unfold overlaps. cbv zeta.
  rewrite !andb_true_iff, !Qltb_true, !Qgtb_true. tauto.
Qed.






(** ** The loop over the obstacle pool *)

Lemma enemyStep_at (l : Layout) (s : Q) (pre suf : list Enemy.t)
    (e : Enemy.t) :
  enemyStep l s (List.length pre) (pre ++ e :: suf) =
  if offScreen l (moveEnemy l s e) then pre ++ suf
  else pre ++ moveEnemy l s e :: suf.
Proof.
  unfold enemyStep, array_set, splice1.
  rewrite nth_error_app2, Nat.sub_diag by apply Nat.le_refl. cbn [nth_error].
  fold (moveEnemy l s e). fold (offScreen l (moveEnemy l s e)).
  assert (Hf : forall a : Enemy.t,
             firstn (List.length pre) (pre ++ a :: suf) = pre).
  { intros a. rewrite firstn_app, Nat.sub_diag, firstn_all. cbn.
    apply app_nil_r. }
  assert (Hs : forall a : Enemy.t,
             skipn (S (List.length pre)) (pre ++ a :: suf) = suf).
  { intros a. rewrite skipn_app.
    rewrite (skipn_all2 pre) by (apply Nat.le_succ_diag_r).
    replace (S (List.length pre) - List.length pre)%nat with 1%nat by lia.
    reflexivity. }
  rewrite Hf, Hs. destruct (offScreen l (moveEnemy l s e)); [|reflexivity].
  rewrite Hf, Hs. reflexivity.
Qed.

Lemma enemiesLoop_prefix (l : Layout) (s : Q) (pre suf : list Enemy.t) :
  enemiesLoop l s (List.length pre) (pre ++ suf) =
  filter (fun o => negb (offScreen l o)) (map (moveEnemy l s) pre) ++ suf.
Proof.
  revert suf. induction pre as [|e pre IH] using rev_ind; intros suf.
  - reflexivity.
  - rewrite length_app, Nat.add_comm. cbn [List.length Nat.add enemiesLoop].
    rewrite <- app_assoc. cbn [app]. rewrite enemyStep_at.
    rewrite map_app, filter_app. cbn [map filter].
    destruct (offScreen l (moveEnemy l s e)); cbn [negb];
      rewrite IH, <- app_assoc; reflexivity.
Qed.

(** The reverse loop with its in-place removal visits every obstacle once:
    it moves each one and drops those that are then off the screen. *)
Lemma enemiesLoop_spec (l : Layout) (s : Q) (es : list Enemy.t) :
  enemiesLoop l s (List.length es) es =
  filter (fun o => negb (offScreen l o)) (map (moveEnemy l s) es).
Proof.
  rewrite <- (app_nil_r es) at 2. rewrite enemiesLoop_prefix.
  apply app_nil_r.
Qed.

(** C4 (as the code has it).  On doubles.  A tick of a running game adds
    [speed + 1], with the speed the tick ends with, to the [y] of every
    obstacle of the pool, the one it has just spawned included, and then
    removes exactly those whose [y] is above [H + 100], [H] being the
    height of the canvas.  So an obstacle of the pool that is on the
    screen after each of [n] ticks of a game that is still running is in
    the pool after them, with the [y] the [n] additions have made; the
    next tick adds [speed + 1] once more, and the obstacle is in the pool
    after it exactly when that [y] is not above [H + 100].  The tick at
    which it leaves depends on [H] and on how the sums round, not on the
    speed alone. *)
Theorem obstacle_removed_below_screen (st : B64.Game) (e : B64.Enemy.t)
    (n : nat) :
  In e (B64.enemies st) ->
  B64.running (B64.ticks n st) = true ->
  B64.onScreenFor st e n = true ->
  let e1 := B64.track st e (S n) in
  (forall g : B64.Game,
     B64.running g = true ->
     B64.enemies (B64.update g) =
     filter (fun o => negb (B64.H (B64.layout g) + 100
                            <? B64.Enemy.y o)%float)
            (map (fun o =>
                    B64.Enemy.set_x
                      (B64.laneCenter (B64.layout g) (B64.Enemy.lane o))
                      (B64.Enemy.set_y
                         (B64.Enemy.y o + (B64.speed (B64.update g) + 1))%float
                         o))
                 (B64.afterSpawn g))) /\
  In (B64.track st e n) (B64.enemies (B64.ticks n st)) /\
  B64.Enemy.y e1 =
    (B64.Enemy.y (B64.track st e n)
     + (B64.speed (B64.ticks (S n) st) + 1))%float /\
  B64.Enemy.lane e1 = B64.Enemy.lane e /\
  (In e1 (B64.enemies (B64.ticks (S n) st)) <->
   (B64.H (B64.layout st) + 100 <? B64.Enemy.y e1)%float = false).
Proof.
  intros He Hrun Hon e1.
  assert (Hin : In (B64.track st e n) (B64.enemies (B64.ticks n st))).
  { apply b64_track_In; [exact He | | exact Hon].
    destruct n as [|n]; [now left | right].
    simpl. now apply b64_ticks_running_gameLoop. }
  split; [intros g Hg; now apply b64_update_pool|].
  split; [exact Hin|].
  split; [unfold e1; rewrite b64_track_succ_r; reflexivity|].
  split; [apply b64_track_lane|].
  unfold e1. rewrite b64_track_succ_r, b64_ticks_succ_r.
  rewrite <- (b64_ticks_layout n st).
  destruct (b64_gameLoop_In (B64.ticks n st) (B64.track st e n) Hrun Hin)
    as [Hkeep Hdrop].
  fold (B64.offScreen (B64.layout (B64.ticks n st))
          (B64.moveEnemy (B64.layout (B64.ticks n st))
             (B64.speed (B64.gameLoop (B64.ticks n st)))
             (B64.track st e n))).
  destruct (B64.offScreen _ _) eqn:Eoff.
  - split; [intros Hin'; now elim (Hdrop eq_refl) | discriminate].
  - split; [reflexivity | intros _; now apply Hkeep].
Qed.

(** ** Restart *)

Lemma resetGame_first_call (st : Game) :
  animationFrameId st = None ->
  resetGame st =
  gameLoop
    (set_running true
       (set_player (Player.set_lane 1 (player st))
          (set_stripeOffset 0
             (set_spawnTimer 0
                (set_enemies [] (set_speed 3 (set_score 0 st))))))).
Proof.
  intros Hid. unfold resetGame. cbv zeta. simpl animationFrameId.
  rewrite Hid. reflexivity.
Qed.

(** C3 (as the code has it).  Called when the tick loop has been started
    ([animationFrameId] is set), [resetGame] yields score 0, speed 3, an
    empty pool, [spawnTimer] 0, [stripeOffset] 0, the player in lane 1 and
    [running] true, whatever the state before; a second call right after
    the first yields the same state as the first. *)
Theorem resetGame_loop_started (st : Game) (id : positive) :
  animationFrameId st = Some id ->
  score (resetGame st) = 0 /\
  speed (resetGame st) = 3%Q /\
  enemies (resetGame st) = [] /\
  spawnTimer (resetGame st) = 0 /\
  stripeOffset (resetGame st) = 0%Q /\
  Player.lane (player (resetGame st)) = 1 /\
  running (resetGame st) = true /\
  resetGame (resetGame st) = resetGame st.
Proof.
  intros Hid. unfold resetGame. cbv zeta. simpl animationFrameId.
  rewrite Hid. simpl. rewrite Hid. repeat split.
Qed.

(** ** Lane changes *)

Lemma left_not_right (key : string) :
  isLeftKey key = true -> isRightKey key = false.
Proof.
  unfold isLeftKey, isRightKey. intros Hl.
  apply orb_true_iff in Hl. destruct Hl as [Hl | Hl];
    apply String.eqb_eq in Hl.
  - subst key. reflexivity.
  - rewrite Hl. simpl. rewrite orb_false_r.
    apply String.eqb_neq. intros ->. discriminate Hl.
Qed.

Lemma keydown_lane (now : Q) (key : string) (st : Game) :
  Player.lane (player (keydown now key st)) =
  if accepted now key st then
    if isLeftKey key then Z.max 0 (Player.lane (player st) - 1)
    else Z.min (lanes - 1) (Player.lane (player st) + 1)
  else Player.lane (player st).
Proof.
  unfold keydown, accepted.
  destruct (Qltb (now - lastMoveTime st) minMoveInterval); simpl;
    [reflexivity|].
  destruct (isLeftKey key) eqn:Hl.
  - rewrite (left_not_right key Hl). reflexivity.
  - destruct (isRightKey key); reflexivity.
Qed.

Lemma keydown_lastMoveTime (now : Q) (key : string) (st : Game) :
  lastMoveTime (keydown now key st) =
  if accepted now key st then now else lastMoveTime st.
Proof.
  unfold keydown, accepted.
  destruct (Qltb (now - lastMoveTime st) minMoveInterval); simpl;
    [reflexivity|].
  destruct (isLeftKey key) eqn:Hl.
  - rewrite (left_not_right key Hl). reflexivity.
  - destruct (isRightKey key); reflexivity.
Qed.

Lemma keydown_not_accepted (now : Q) (key : string) (st : Game) :
  accepted now key st = false -> keydown now key st = st.
Proof.
  unfold keydown, accepted.
  destruct (Qltb (now - lastMoveTime st) minMoveInterval); simpl;
    [reflexivity|].
  intros Hk. apply orb_false_iff in Hk. destruct Hk as [-> ->]. reflexivity.
Qed.

Lemma keydown_laneInRange (now : Q) (key : string) (st : Game) :
  laneInRange st -> laneInRange (keydown now key st).
Proof.
  unfold laneInRange, lanes. rewrite keydown_lane. unfold lanes.
  destruct (accepted now key st); [|auto].
  destruct (isLeftKey key); lia.
Qed.

Lemma keydowns_laneInRange (evs : list (Q * string)) (st : Game) :
  laneInRange st -> laneInRange (keydowns evs st).
Proof.
  revert st. induction evs as [|[now key] rest IH]; intros st Hst; simpl.
  - exact Hst.
  - apply IH. now apply keydown_laneInRange.
Qed.

Lemma beforeCollision_lane (st : Game) :
  Player.lane (player (beforeCollision st)) = Player.lane (player st).
Proof.
  unfold beforeCollision; simpl.
  destruct (Z.rem _ 1000 =? 0); simpl;
    destruct (_ >=? spawnInterval); reflexivity.
Qed.

Lemma gameLoop_lane (st : Game) :
  Player.lane (player (gameLoop st)) = Player.lane (player st).
Proof.
  unfold gameLoop. destruct (running st) eqn:Hr; [|reflexivity].
  simpl. destruct (update_fields st Hr) as (_ & _ & _ & -> & _).
  apply beforeCollision_lane.
Qed.

(** The lane stays in range whatever happens to the page. *)
Lemma step_laneInRange (a : Action) (st : Game) :
  laneInRange st -> laneInRange (step a st).
Proof.
  intros Hst. destruct a as [|now key| |]; simpl.
  - unfold laneInRange. now rewrite gameLoop_lane.
  - now apply keydown_laneInRange.
  - unfold laneInRange, resetGame. cbv zeta. simpl animationFrameId.
    destruct (animationFrameId st); [|rewrite gameLoop_lane];
      simpl; unfold lanes; lia.
  - unfold laneInRange.
    destruct (endGame_frame st) as (_ & _ & _ & -> & _). exact Hst.
Qed.

Lemma run_laneInRange (acts : list Action) (st : Game) :
  laneInRange st -> laneInRange (run acts st).
Proof.
  revert st. induction acts as [|a rest IH]; intros st Hst; simpl.
  - exact Hst.
  - apply IH. now apply step_laneInRange.
Qed.

(** C6.  If the player's lane is in [0, lanes - 1], it is still there
    after any sequence of key presses, whatever their keys and timestamps;
    a move-left in lane 0 and a move-right in lane [lanes - 1] leave the
    lane where it is. *)
Theorem lane_clamped (st : Game) :
  laneInRange st ->
  (forall evs : list (Q * string), laneInRange (keydowns evs st)) /\
  (forall (now : Q) (key : string),
     isLeftKey key = true -> Player.lane (player st) = 0 ->
     Player.lane (player (keydown now key st)) = 0) /\
  (forall (now : Q) (key : string),
     isRightKey key = true -> Player.lane (player st) = lanes - 1 ->
     Player.lane (player (keydown now key st)) = lanes - 1).
Proof.
  intros Hst. split; [|split].
  - intros evs. now apply keydowns_laneInRange.
  - intros now key Hl H0. rewrite keydown_lane, Hl, H0.
    destruct (accepted now key st); reflexivity.
  - intros now key Hr H2. rewrite keydown_lane, H2.
    destruct (accepted now key st); [|reflexivity].
    destruct (isLeftKey key) eqn:Hl; [|reflexivity].
    rewrite (left_not_right key Hl) in Hr. discriminate Hr.
Qed.

Lemma keydown_too_early (now : Q) (key : string) (st : Game) :
  (now - lastMoveTime st < minMoveInterval)%Q -> keydown now key st = st.
Proof.
  intros Hlt. apply keydown_not_accepted. unfold accepted.
  apply Qltb_true in Hlt. rewrite Hlt. reflexivity.
Qed.

Lemma keydown_then_too_early (now dt : Q) (key key' : string) (st : Game) :
  accepted now key st = true -> (dt < minMoveInterval)%Q ->
  keydown (now + dt) key' (keydown now key st) = keydown now key st.
Proof.
  intros Hacc Hdt. apply keydown_too_early.
  rewrite keydown_lastMoveTime, Hacc. lra.
Qed.

(** C7.  A key press changes the state only if at least 150 ms lie between
    its timestamp and [lastMoveTime], and [lastMoveTime] is the timestamp
    of the last press that was accepted.  So of two presses less than
    150 ms apart, for instance 50 ms, at most one has an effect; and when
    a move-right press is accepted at time [now], it moves the player one
    lane to the right (clamped) and the second press changes nothing. *)
Theorem keydown_debounce (st : Game) (now : Q) (key : string) :
  (keydown now key st <> st ->
     (minMoveInterval <= now - lastMoveTime st)%Q) /\
  lastMoveTime (keydown now key st) =
    (if accepted now key st then now else lastMoveTime st) /\
  (accepted now key st = false -> keydown now key st = st) /\
  (forall (dt : Q) (key' : string),
     (dt < minMoveInterval)%Q ->
     keydown now key st = st \/
     keydown (now + dt) key' (keydown now key st) = keydown now key st) /\
  (isRightKey key = true ->
   (minMoveInterval <= now - lastMoveTime st)%Q ->
   Player.lane (player (keydown now key st)) =
     Z.min (lanes - 1) (Player.lane (player st) + 1) /\
   forall (dt : Q) (key' : string),
     (dt < minMoveInterval)%Q ->
     keydown (now + dt) key' (keydown now key st) = keydown now key st).
Proof.
  split; [|split; [|split; [|split]]].
  - intros Hne. destruct (Qlt_le_dec (now - lastMoveTime st) minMoveInterval)
      as [Hlt | Hle]; [|exact Hle].
    exfalso. apply Hne. now apply keydown_too_early.
  - apply keydown_lastMoveTime.
  - apply keydown_not_accepted.
  - intros dt key' Hdt. destruct (accepted now key st) eqn:Hacc.
    + right. now apply keydown_then_too_early.
    + left. now apply keydown_not_accepted.
  - intros Hr Hle.
    assert (Hacc : accepted now key st = true).
    { unfold accepted. apply Qltb_false in Hle. rewrite Hle, Hr.
      simpl. apply orb_true_r. }
    split.
    + rewrite keydown_lane, Hacc.
      destruct (isLeftKey key) eqn:Hl; [|reflexivity].
      rewrite (left_not_right key Hl) in Hr. discriminate Hr.
    + intros dt key' Hdt. now apply keydown_then_too_early.
Qed.

(** * Further properties *)

(** ** What the phases of [update] leave alone *)

Lemma spawnEnemy_frame (st : Game) :
  layout (spawnEnemy st) = layout st /\
  running (spawnEnemy st) = running st /\
  score (spawnEnemy st) = score st /\
  speed (spawnEnemy st) = speed st /\
  highScore (spawnEnemy st) = highScore st /\
  animationFrameId (spawnEnemy st) = animationFrameId st /\
  player (spawnEnemy st) = player st /\
  spawnTimer (spawnEnemy st) = spawnTimer st /\
  stripeOffset (spawnEnemy st) = stripeOffset st /\
  lastMoveTime (spawnEnemy st) = lastMoveTime st /\
  random (host (spawnEnemy st)) = random (host st) /\
  hasSetHighScore (host (spawnEnemy st)) = hasSetHighScore (host st) /\
  setHighScoreCalls (host (spawnEnemy st)) = setHighScoreCalls (host st) /\
  rafNext (host (spawnEnemy st)) = rafNext (host st) /\
  randomCalls (host (spawnEnemy st)) = (randomCalls (host st) + 2)%nat.
Proof.
  unfold spawnEnemy, Math_random; simpl. repeat split. lia.
Qed.

(** The pool as [update] has it after the spawn step, before the loop that
    moves the obstacles. *)
Lemma beforeCollision_frame (st : Game) :
  layout (beforeCollision st) = layout st /\
  running (beforeCollision st) = running st /\
  highScore (beforeCollision st) = highScore st /\
  animationFrameId (beforeCollision st) = animationFrameId st /\
  lastMoveTime (beforeCollision st) = lastMoveTime st /\
  random (host (beforeCollision st)) = random (host st) /\
  hasSetHighScore (host (beforeCollision st)) = hasSetHighScore (host st) /\
  setHighScoreCalls (host (beforeCollision st)) = setHighScoreCalls (host st) /\
  rafNext (host (beforeCollision st)) = rafNext (host st) /\
  player (beforeCollision st) =
    Player.set_x (laneCenter (layout st) (Player.lane (player st)))
                 (player st).
Proof.
  unfold beforeCollision; simpl.
  destruct (Z.rem _ 1000 =? 0); simpl;
    destruct (_ >=? spawnInterval); simpl; repeat split.
Qed.

Lemma beforeCollision_spawnTimer (st : Game) :
  spawnTimer (beforeCollision st) =
  if spawnTimer st + 1 >=? spawnInterval then 0 else spawnTimer st + 1.
Proof.
  unfold beforeCollision; simpl.
  destruct (Z.rem _ 1000 =? 0); simpl;
    destruct (_ >=? spawnInterval); reflexivity.
Qed.


Lemma beforeCollision_enemies (st : Game) :
  enemies (beforeCollision st) =
  filter (fun o => negb (offScreen (layout st) o))
         (map (moveEnemy (layout st) (speed (beforeCollision st)))
              (afterSpawn st)).
Proof.
  rewrite beforeCollision_speed.
  unfold beforeCollision, afterSpawn; simpl.
  destruct (Z.rem _ 1000 =? 0); simpl;
    destruct (_ >=? spawnInterval); simpl;
    rewrite enemiesLoop_spec; reflexivity.
Qed.

Lemma update_pool (st : Game) :
  running st = true ->
  enemies (update st) =
  filter (fun o => negb (offScreen (layout st) o))
         (map (moveEnemy (layout st) (speed (update st))) (afterSpawn st)).
Proof.
  intros Hr. destruct (update_fields st Hr) as (_ & Hsp & -> & _).
  rewrite Hsp. apply beforeCollision_enemies.
Qed.

Lemma update_layout (st : Game) : layout (update st) = layout st.
Proof.
  destruct (running st) eqn:Hr.
  - rewrite (update_running st Hr). cbv zeta.
    remember (beforeCollision st) as st1 eqn:E1.
    destruct (collisionLoop_frame (enemies st1) st1) as (Hl & _).
    simpl. rewrite Hl, E1. apply beforeCollision_frame.
  - now rewrite (update_not_running st Hr).
Qed.

Lemma update_player (st : Game) :
  running st = true ->
  player (update st) =
  Player.set_x (laneCenter (layout st) (Player.lane (player st))) (player st).
Proof.
  intros Hr. destruct (update_fields st Hr) as (_ & _ & _ & -> & _).
  apply beforeCollision_frame.
Qed.

(** ** Spawning *)

Lemma floor_times_lanes (r : Q) :
  (0 <= r < 1)%Q -> 0 <= Math_floor (r * inject_Z lanes) <= lanes - 1.
Proof.
  intros [H0 H1]. unfold Math_floor. change (inject_Z lanes) with 3%Q.
  unfold lanes. split.
  - change 0 with (Qfloor 0). apply Qfloor_resp_le. lra.
  - assert (Hlt : (inject_Z (Qfloor (r * 3)) < inject_Z 3)%Q).
    { apply Qle_lt_trans with (r * 3)%Q; [apply Qfloor_le|].
      change (inject_Z 3) with 3%Q. lra. }
    rewrite <- Zlt_Qlt in Hlt. lia.
Qed.

(** X1.  [spawnEnemy] pushes one obstacle at the end of the pool and
    leaves the others as they are.  When the two values [Math.random]
    returns are in [0, 1), its lane is one of the [lanes] lanes, its [x] is
    the centre of that lane, its size is the default size, and its [y] is
    at most [-h] for the default height [h]: it starts at least a full
    height above the top edge.  Two random numbers are consumed. *)
Theorem spawnEnemy_new_obstacle (st : Game) :
  let r1 := random (host st) (randomCalls (host st)) in
  let r2 := random (host st) (S (randomCalls (host st))) in
  (0 <= r1 < 1)%Q -> (0 <= r2 < 1)%Q ->
  exists e : Enemy.t,
    enemies (spawnEnemy st) = enemies st ++ [e] /\
    0 <= Enemy.lane e <= lanes - 1 /\
    Enemy.x e = laneCenter (layout st) (Enemy.lane e) /\
    Enemy.w e = enemyDefaultW (layout st) /\
    Enemy.h e = enemyDefaultH (layout st) /\
    (Enemy.y e <= - enemyDefaultH (layout st))%Q /\
    randomCalls (host (spawnEnemy st)) = (randomCalls (host st) + 2)%nat.
Proof.
  intros r1 r2 Hr1 Hr2.
  eexists. split; [unfold spawnEnemy, Math_random; simpl; reflexivity|].
  simpl. fold r1 r2. split; [now apply floor_times_lanes|].
  repeat split; try lra. lia.
Qed.

Lemma endGame_host (st : Game) :
  random (host (endGame st)) = random (host st) /\
  randomCalls (host (endGame st)) = randomCalls (host st) /\
  rafNext (host (endGame st)) = rafNext (host st) /\
  hasSetHighScore (host (endGame st)) = hasSetHighScore (host st).
Proof.
  unfold endGame; simpl.
  destruct (score st >? highScore st); simpl;
    [destruct (hasSetHighScore (host st)) eqn:Hapi |]; simpl;
    repeat split; auto.
Qed.

Lemma collisionLoop_host (es : list Enemy.t) (st : Game) :
  random (host (collisionLoop es st)) = random (host st) /\
  randomCalls (host (collisionLoop es st)) = randomCalls (host st) /\
  rafNext (host (collisionLoop es st)) = rafNext (host st) /\
  hasSetHighScore (host (collisionLoop es st)) = hasSetHighScore (host st).
Proof.
  destruct (collisionLoop_cases es st) as [-> | ->];
    [repeat split | apply endGame_host].
Qed.

Lemma update_host (st : Game) :
  running st = true ->
  random (host (update st)) = random (host st) /\
  randomCalls (host (update st)) = randomCalls (host (beforeCollision st)) /\
  rafNext (host (update st)) = rafNext (host st) /\
  hasSetHighScore (host (update st)) = hasSetHighScore (host st).
Proof.
  intros Hr. rewrite (update_running st Hr). cbv zeta.
  remember (beforeCollision st) as st1 eqn:E1.
  destruct (collisionLoop_host (enemies st1) st1) as (H1 & H2 & H3 & H4).
  simpl. rewrite H1, H2, H3, H4, E1.
  destruct (beforeCollision_frame st)
    as (_ & _ & _ & _ & _ & Hrnd & Hapi & _ & Hraf & _).
  repeat split; assumption.
Qed.

Lemma update_spawnTimer (st : Game) :
  running st = true ->
  spawnTimer (update st) =
  if spawnTimer st + 1 >=? spawnInterval then 0 else spawnTimer st + 1.
Proof.
  intros Hr. destruct (update_fields st Hr) as (_ & _ & _ & _ & -> & _).
  apply beforeCollision_spawnTimer.
Qed.


Lemma step_spawnTimer_range (a : Action) (st : Game) :
  0 <= spawnTimer st < spawnInterval ->
  0 <= spawnTimer (step a st) < spawnInterval.
Proof.
  intros Hst.
  assert (Hgl : forall s : Game, 0 <= spawnTimer s < spawnInterval ->
                  0 <= spawnTimer (gameLoop s) < spawnInterval).
  { intros s Hs. unfold gameLoop. destruct (running s) eqn:Hr; simpl.
    - rewrite (update_spawnTimer s Hr).
      destruct (Z.geb_spec (spawnTimer s + 1) spawnInterval);
        unfold spawnInterval in *; lia.
    - exact Hs. }
  destruct a as [|now key| |]; simpl.
  - now apply Hgl.
  - unfold keydown.
    destruct (Qltb (now - lastMoveTime st) minMoveInterval); [exact Hst|].
    destruct (isLeftKey key), (isRightKey key); exact Hst.
  - unfold resetGame. cbv zeta. simpl animationFrameId.
    destruct (animationFrameId st); [simpl; unfold spawnInterval; lia|].
    apply Hgl. simpl. unfold spawnInterval; lia.
  - destruct (endGame_frame st) as (_ & _ & _ & _ & _ & -> & _). exact Hst.
Qed.

(** X3.  The spawn timer stays in [0, 89] whatever happens to the page:
    frames, key presses, restarts and ends of game. *)
Theorem run_spawnTimer_range (acts : list Action) (st : Game) :
  0 <= spawnTimer st < spawnInterval ->
  0 <= spawnTimer (run acts st) < spawnInterval.
Proof.
  revert st. induction acts as [|a rest IH]; intros st Hst; simpl.
  - exact Hst.
  - apply IH. now apply step_spawnTimer_range.
Qed.

(** ** The pool after a tick *)

(** X4.  On doubles.  After a tick of a running game no obstacle left in
    the pool has its [y] above [H + 100], each has its [x] on the centre of
    its lane, the lane, width and height it had, and its [y] increased by
    the new speed plus 1; the player's [x] is on the centre of the
    player's lane, which the tick does not change. *)
Theorem update_pool_on_screen (st : B64.Game) :
  B64.running st = true ->
  Forall (fun e : B64.Enemy.t =>
            (B64.H (B64.layout st) + 100 <? B64.Enemy.y e)%float = false /\
            B64.Enemy.x e = B64.laneCenter (B64.layout st) (B64.Enemy.lane e) /\
            exists o : B64.Enemy.t,
              In o (B64.afterSpawn st) /\
              B64.Enemy.lane e = B64.Enemy.lane o /\
              B64.Enemy.w e = B64.Enemy.w o /\
              B64.Enemy.h e = B64.Enemy.h o /\
              B64.Enemy.y e =
                (B64.Enemy.y o + (B64.speed (B64.update st) + 1))%float)
         (B64.enemies (B64.update st)) /\
  B64.Player.x (B64.player (B64.update st)) =
    B64.laneCenter (B64.layout st) (B64.Player.lane (B64.player st)) /\
  B64.Player.lane (B64.player (B64.update st)) =
    B64.Player.lane (B64.player st).
Proof.
  intros Hr. split.
  - rewrite (b64_update_pool st Hr). apply Forall_forall. intros e He.
    apply filter_In in He. destruct He as [He Hon].
    apply in_map_iff in He. destruct He as (o & <- & Ho).
    apply negb_true_iff in Hon.
    split; [exact Hon|]. split; [reflexivity|].
    exists o. repeat split. exact Ho.
  - rewrite (b64_update_player st Hr). split; reflexivity.
Qed.

Lemma afterSpawn_lanes (st : Game) :
  randomInUnit st -> enemyLanesInRange st ->
  Forall (fun e : Enemy.t => 0 <= Enemy.lane e <= lanes - 1) (afterSpawn st).
Proof.
  intros Hrnd Hst. unfold afterSpawn.
  destruct (spawnTimer st + 1 >=? spawnInterval); [|exact Hst].
  unfold spawnEnemy, Math_random; simpl.
  apply Forall_app. split; [exact Hst|].
  constructor; [|constructor]. simpl. apply floor_times_lanes, Hrnd.
Qed.

Lemma gameLoop_random (st : Game) :
  random (host (gameLoop st)) = random (host st).
Proof.
  unfold gameLoop. destruct (running st) eqn:Hr; simpl; [|reflexivity].
  apply (update_host st Hr).
Qed.

Lemma gameLoop_enemyLanes (st : Game) :
  randomInUnit st -> enemyLanesInRange st -> enemyLanesInRange (gameLoop st).
Proof.
  intros Hrnd Hst. unfold enemyLanesInRange, gameLoop.
  destruct (running st) eqn:Hr; simpl; [|exact Hst].
  rewrite (update_pool st Hr). apply Forall_forall. intros e He.
  apply filter_In in He. destruct He as [He _].
  apply in_map_iff in He. destruct He as (o & <- & Ho).
  pose proof (afterSpawn_lanes st Hrnd Hst) as Hall.
  rewrite Forall_forall in Hall. exact (Hall o Ho).
Qed.

Lemma keydown_frame_fields (now : Q) (key : string) (st : Game) :
  layout (keydown now key st) = layout st /\
  host (keydown now key st) = host st /\
  running (keydown now key st) = running st /\
  score (keydown now key st) = score st /\
  speed (keydown now key st) = speed st /\
  highScore (keydown now key st) = highScore st /\
  animationFrameId (keydown now key st) = animationFrameId st /\
  enemies (keydown now key st) = enemies st /\
  spawnTimer (keydown now key st) = spawnTimer st /\
  stripeOffset (keydown now key st) = stripeOffset st /\
  Player.x (player (keydown now key st)) = Player.x (player st) /\
  Player.y (player (keydown now key st)) = Player.y (player st) /\
  Player.w (player (keydown now key st)) = Player.w (player st) /\
  Player.h (player (keydown now key st)) = Player.h (player st).
Proof.
  unfold keydown.
  destruct (Qltb (now - lastMoveTime st) minMoveInterval);
    [repeat split|].
  destruct (isLeftKey key), (isRightKey key); repeat split.
Qed.

Lemma resetGame_random (st : Game) :
  random (host (resetGame st)) = random (host st).
Proof.
  unfold resetGame. cbv zeta. simpl animationFrameId.
  destruct (animationFrameId st); [reflexivity|].
  rewrite gameLoop_random. reflexivity.
Qed.

Lemma step_random (a : Action) (st : Game) :
  random (host (step a st)) = random (host st).
Proof.
  destruct a as [|now key| |]; simpl.
  - apply gameLoop_random.
  - destruct (keydown_frame_fields now key st) as (_ & -> & _). reflexivity.
  - apply resetGame_random.
  - apply endGame_host.
Qed.

Lemma step_enemyLanes (a : Action) (st : Game) :
  randomInUnit st -> enemyLanesInRange st -> enemyLanesInRange (step a st).
Proof.
  intros Hrnd Hst. destruct a as [|now key| |]; simpl.
  - now apply gameLoop_enemyLanes.
  - unfold enemyLanesInRange.
    destruct (keydown_frame_fields now key st)
      as (_ & _ & _ & _ & _ & _ & _ & -> & _). exact Hst.
  - unfold resetGame. cbv zeta. simpl animationFrameId.
    destruct (animationFrameId st).
    + unfold enemyLanesInRange. simpl. constructor.
    + apply gameLoop_enemyLanes; [exact Hrnd|].
      unfold enemyLanesInRange. simpl. constructor.
  - unfold enemyLanesInRange.
    destruct (endGame_frame st) as (_ & _ & _ & _ & -> & _). exact Hst.
Qed.

(** X5.  When [Math.random] returns values in [0, 1), the obstacles of the
    pool stay in the lanes 0 .. [lanes - 1] whatever happens to the page:
    no obstacle is ever put or moved off the road. *)
Theorem run_enemy_lanes_in_range (acts : list Action) (st : Game) :
  randomInUnit st -> enemyLanesInRange st ->
  enemyLanesInRange (run acts st).
Proof.
  revert st. induction acts as [|a rest IH]; intros st Hrnd Hst; simpl.
  - exact Hst.
  - apply IH.
    + intros n. rewrite step_random. apply Hrnd.
    + now apply step_enemyLanes.
Qed.

(** ** Collisions *)

Lemma endGame_running (st : Game) : running (endGame st) = false.
Proof.
  unfold endGame; simpl.
  destruct (score st >? highScore st); simpl;
    [destruct (hasSetHighScore (host st)) |]; reflexivity.
Qed.

Lemma collisionLoop_running (es : list Enemy.t) (st : Game) :
  running (collisionLoop es st) =
  if existsb (overlaps (player st)) es then false else running st.
Proof.
  induction es as [|e rest IH]; simpl; [reflexivity|].
  destruct (overlaps (player st) e); simpl; [apply endGame_running | exact IH].
Qed.


(** ** High score *)

(** X7.  [endGame] leaves the larger of the score and the old high score
    as high score, so the score never exceeds it afterwards, and calling
    it again right away changes nothing: no second request to persist is
    made. *)
Theorem endGame_idempotent (st : Game) :
  highScore (endGame st) = Z.max (score st) (highScore st) /\
  score (endGame st) <= highScore (endGame st) /\
  endGame (endGame st) = endGame st.
Proof.
  unfold endGame; simpl.
  destruct (Z.gtb_spec (score st) (highScore st)) as [Hgt | Hle]; simpl.
  - destruct (hasSetHighScore (host st)) eqn:Hapi; simpl;
      rewrite Z.gtb_ltb, Z.ltb_irrefl; simpl;
      repeat split; lia.
  - destruct (Z.gtb_spec (score st) (highScore st)) as [Hgt | _]; [lia|].
    repeat split; lia.
Qed.

Lemma endGame_highScore (st : Game) :
  highScore (endGame st) = Z.max (score st) (highScore st).
Proof.
  unfold endGame; simpl.
  destruct (Z.gtb_spec (score st) (highScore st)) as [Hgt | Hle]; simpl;
    [destruct (hasSetHighScore (host st)); simpl|]; lia.
Qed.

Lemma update_highScore_cases (st : Game) :
  running st = true ->
  (running (update st) = true /\ highScore (update st) = highScore st) \/
  (running (update st) = false /\
   highScore (update st) = Z.max (score (update st)) (highScore st)).
Proof.
  intros Hr. destruct (update_fields st Hr) as (Hsc & _).
  rewrite Hsc. rewrite (update_running st Hr). cbv zeta.
  remember (beforeCollision st) as st1 eqn:E1.
  assert (Hr1 : running st1 = true).
  { rewrite E1. destruct (beforeCollision_frame st) as (_ & -> & _).
    exact Hr. }
  assert (Hh1 : highScore st1 = highScore st).
  { rewrite E1. apply beforeCollision_frame. }
  simpl running. simpl highScore.
  destruct (collisionLoop_cases (enemies st1) st1) as [-> | ->].
  - left. split; [exact Hr1 | exact Hh1].
  - right. split; [apply endGame_running|].
    rewrite endGame_highScore, Hh1. reflexivity.
Qed.

Lemma gameLoop_highScore (st : Game) :
  highScore st <= highScore (gameLoop st) /\
  ((running st = false -> score st <= highScore st) ->
   running (gameLoop st) = false ->
   score (gameLoop st) <= highScore (gameLoop st)).
Proof.
  unfold gameLoop. destruct (running st) eqn:Hr; simpl.
  - destruct (update_highScore_cases st Hr) as [[Hr' Hh] | [Hr' Hh]];
      rewrite Hh; (split; [lia|]); intros _ Hstop.
    + rewrite Hr' in Hstop. discriminate Hstop.
    + lia.
  - split; [lia|]. intros Hinv _. now apply Hinv.
Qed.

Lemma step_highScore (a : Action) (st : Game) :
  highScore st <= highScore (step a st) /\
  ((running st = false -> score st <= highScore st) ->
   running (step a st) = false ->
   score (step a st) <= highScore (step a st)).
Proof.
  destruct a as [|now key| |]; simpl.
  - apply gameLoop_highScore.
  - destruct (keydown_frame_fields now key st)
      as (_ & _ & -> & -> & _ & -> & _).
    split; [lia|]. intros Hinv Hstop. now apply Hinv.
  - unfold resetGame. cbv zeta. simpl animationFrameId.
    destruct (animationFrameId st).
    + simpl. split; [lia|]. intros _ Hstop. discriminate Hstop.
    + match goal with |- context [gameLoop ?s] =>
        destruct (gameLoop_highScore s) as [Hle Hinv] end.
      simpl in Hle. split; [exact Hle|]. intros _ Hstop.
      apply Hinv; [|exact Hstop]. simpl. intros Hc. discriminate Hc.
  - rewrite endGame_highScore. destruct (endGame_frame st) as (_ & -> & _).
    split; [lia|]. intros _ _. lia.
Qed.

(** X8.  The high score never decreases, whatever happens to the page;
    and if the score of a stopped game is at most the high score, this
    stays so: whenever the game is stopped, the high score shown is at
    least the score shown. *)
Theorem run_highScore (acts : list Action) (st : Game) :
  highScore st <= highScore (run acts st) /\
  ((running st = false -> score st <= highScore st) ->
   running (run acts st) = false ->
   score (run acts st) <= highScore (run acts st)).
Proof.
  revert st. induction acts as [|a rest IH]; intros st; simpl.
  - split; [lia|]. intros Hinv Hstop. now apply Hinv.
  - destruct (step_highScore a st) as [Hle Hinv].
    destruct (IH (step a st)) as [Hle' Hinv'].
    split; [lia|]. intros Hst. apply Hinv'. now apply Hinv.
Qed.

(** ** The animation loop *)

Lemma gameLoop_raf (st : Game) :
  animationFrameId (gameLoop st) = Some (rafNext (host st)) /\
  rafNext (host (gameLoop st)) = Pos.succ (rafNext (host st)).
Proof.
  unfold gameLoop. destruct (running st) eqn:Hr; simpl; [|now split].
  destruct (update_host st Hr) as (_ & _ & -> & _). now split.
Qed.

Lemma step_loop_started (a : Action) (st : Game) :
  animationFrameId st <> None ->
  animationFrameId (step a st) <> None /\
  Z.pos (rafNext (host (step a st))) =
    Z.pos (rafNext (host st)) + Z.of_nat (frames [a]).
Proof.
  intros Hst. destruct a as [|now key| |]; cbn [step frames].
  - destruct (gameLoop_raf st) as [-> ->]. split; [discriminate | lia].
  - destruct (keydown_frame_fields now key st)
      as (_ & -> & _ & _ & _ & _ & -> & _). split; [exact Hst | lia].
  - unfold resetGame. cbv zeta. simpl animationFrameId.
    destruct (animationFrameId st) as [id|] eqn:Hid; [|congruence].
    simpl. rewrite Hid. split; [discriminate | lia].
  - destruct (endGame_frame st) as (_ & _ & _ & _ & _ & _ & _ & _ & ->).
    destruct (endGame_host st) as (_ & _ & -> & _). split; [exact Hst | lia].
Qed.

(** X9.  Once the loop is started ([animationFrameId] is set) nothing
    unsets it, and [requestAnimationFrame] is called once per frame and by
    nothing else: a restart finds the loop started and neither runs a tick
    nor requests a frame, so there is never a second loop. *)
Theorem run_single_loop (acts : list Action) (st : Game) :
  animationFrameId st <> None ->
  animationFrameId (run acts st) <> None /\
  Z.pos (rafNext (host (run acts st))) =
    Z.pos (rafNext (host st)) + Z.of_nat (frames acts) /\
  host (resetGame (run acts st)) = host (run acts st).
Proof.
  revert st. induction acts as [|a rest IH]; intros st Hst.
  - simpl. split; [exact Hst|]. split; [lia|].
    unfold resetGame. cbv zeta. simpl animationFrameId.
    destruct (animationFrameId st); [reflexivity | congruence].
  - destruct (step_loop_started a st Hst) as [Hst' Hraf].
    destruct (IH (step a st) Hst') as (H1 & H2 & H3).
    change (run (a :: rest) st) with (run rest (step a st)).
    split; [exact H1|]. split; [|exact H3].
    rewrite H2, Hraf. destruct a; cbn [frames]; lia.
Qed.

(** ** Key presses *)

(** X10.  A key press writes the player's lane and [lastMoveTime] and
    nothing else: score, speed, pool, timers, the [running] flag and the
    player's position and size are left as they are (the handler does not
    look at [running], so lanes change in a stopped game too); and a lane
    in range moves by at most one. *)
Theorem keydown_writes_lane_only (now : Q) (key : string) (st : Game) :
  layout (keydown now key st) = layout st /\
  host (keydown now key st) = host st /\
  running (keydown now key st) = running st /\
  score (keydown now key st) = score st /\
  speed (keydown now key st) = speed st /\
  highScore (keydown now key st) = highScore st /\
  animationFrameId (keydown now key st) = animationFrameId st /\
  enemies (keydown now key st) = enemies st /\
  spawnTimer (keydown now key st) = spawnTimer st /\
  stripeOffset (keydown now key st) = stripeOffset st /\
  Player.x (player (keydown now key st)) = Player.x (player st) /\
  Player.y (player (keydown now key st)) = Player.y (player st) /\
  Player.w (player (keydown now key st)) = Player.w (player st) /\
  Player.h (player (keydown now key st)) = Player.h (player st) /\
  (laneInRange st ->
   Z.abs (Player.lane (player (keydown now key st))
          - Player.lane (player st)) <= 1).
Proof.
  pose proof (keydown_frame_fields now key st) as Hf.
  repeat (split; [apply Hf|]).
  unfold laneInRange, lanes. intros Hst. rewrite keydown_lane. unfold lanes.
  destruct (accepted now key st); [destruct (isLeftKey key)|]; lia.
Qed.

(** ** Score and speed from a restart *)

Lemma ticks_succ_r (n : nat) (st : Game) :
  ticks (S n) st = gameLoop (ticks n st).
Proof.
  replace (S n) with (n + 1)%nat by lia. rewrite ticks_add. reflexivity.
Qed.

Lemma ticks_running_earlier (n : nat) (st : Game) :
  running (ticks (S n) st) = true -> running (ticks n st) = true.
Proof.
  rewrite ticks_succ_r. intros Hr.
  destruct (running (ticks n st)) eqn:Hn; [reflexivity|].
  rewrite (gameLoop_running_false _ Hn) in Hr. discriminate Hr.
Qed.

Lemma ticks_first_500 (st : Game) (n : nat) :
  score st = 0 -> speed st = 3%Q -> (n <= 500)%nat ->
  running (ticks n st) = true ->
  score (ticks n st) = 2 * Z.of_nat n /\
  speed (ticks n st) = (if (n <? 500)%nat then 3 else 3 + (1 # 5))%Q.
Proof.
  intros Hsc Hsp. induction n as [|n IH]; intros Hn Hr.
  - simpl. now split.
  - pose proof (ticks_running_earlier n st Hr) as Hr'.
    destruct IH as [IHsc IHsp]; [lia | exact Hr' |].
    destruct (Nat.ltb_spec n 500) as [Hlt | Hge]; [|lia].
    rewrite ticks_succ_r, gameLoop_score, gameLoop_speed, Hr'.
    rewrite (update_score _ Hr'), (update_speed _ Hr'), IHsc, IHsp.
    change (Math_floor (3 / (3 # 2))) with 2.
    split; [lia|].
    rewrite Z.rem_mod_nonneg by lia.
    destruct (Z.eqb_spec ((2 * Z.of_nat n + 2) mod 1000) 0) as [E | E];
      destruct (Nat.ltb_spec (S n) 500) as [Hlt' | Hge']; try reflexivity;
      exfalso.
    + assert (2 * Z.of_nat n + 2 < 1000) by lia.
      rewrite Z.mod_small in E by lia. lia.
    + apply E. replace (2 * Z.of_nat n + 2) with 1000 by lia. reflexivity.
Qed.

(** X11.  From score 0 and speed 3, as a restart leaves them, a game that
    is still running after [n] ticks has score [2 n] and speed 3 for
    [n < 500]; the 500th tick brings the score to 1000 and the speed to
    3.2, the first speed-up. *)
Theorem first_speed_up_at_tick_500 (st : Game) (n : nat) :
  score st = 0 -> speed st = 3%Q -> (n <= 500)%nat ->
  running (ticks n st) = true ->
  score (ticks n st) = 2 * Z.of_nat n /\
  ((n < 500)%nat -> speed (ticks n st) = 3%Q) /\
  (n = 500%nat -> speed (ticks n st) = (3 + (1 # 5))%Q).
Proof.
  intros Hsc Hsp Hn Hr.
  destruct (ticks_first_500 st n Hsc Hsp Hn Hr) as [H1 H2].
  split; [exact H1|]. split.
  - intros Hlt. rewrite H2.
    destruct (Nat.ltb_spec n 500); [reflexivity | lia].
  - intros ->. rewrite H2. reflexivity.
Qed.

Lemma update_running_flag (st : Game) :
  running st = true ->
  running (update st) =
  negb (existsb (overlaps (player (update st))) (enemies (update st))).
Proof.
  intros Hr.
  destruct (update_fields st Hr) as (_ & _ & Hen & Hpl & _).
  rewrite Hen, Hpl. rewrite (update_running st Hr). cbv zeta.
  remember (beforeCollision st) as st1 eqn:E1.
  assert (Hr1 : running st1 = true).
  { rewrite E1. destruct (beforeCollision_frame st) as (_ & -> & _).
    exact Hr. }
  simpl running. rewrite collisionLoop_running, Hr1.
  destruct (existsb (overlaps (player st1)) (enemies st1)); reflexivity.
Qed.

Lemma quiet_ticks (n : nat) (st : Game) :
  running st = true -> enemies st = [] ->
  spawnTimer st + Z.of_nat n < spawnInterval ->
  running (ticks n st) = true /\ enemies (ticks n st) = [] /\
  spawnTimer (ticks n st) = spawnTimer st + Z.of_nat n.
Proof.
  revert st. induction n as [|n IH]; intros st Hr He Ht.
  - simpl. repeat split; [exact Hr | exact He | lia].
  - change (ticks (S n) st) with (ticks n (gameLoop st)).
    assert (Hpool : enemies (update st) = []).
    { rewrite (update_pool st Hr). unfold afterSpawn.
      destruct (Z.geb_spec (spawnTimer st + 1) spawnInterval); [lia|].
      rewrite He. reflexivity. }
    assert (Hgl : running (gameLoop st) = true /\ enemies (gameLoop st) = [] /\
                  spawnTimer (gameLoop st) = spawnTimer st + 1).
    { unfold gameLoop. rewrite Hr. simpl.
      rewrite (update_running_flag st Hr), Hpool, (update_spawnTimer st Hr).
      destruct (Z.geb_spec (spawnTimer st + 1) spawnInterval); [lia|].
      repeat split. }
    destruct Hgl as (Hr' & He' & Ht').
    destruct (IH (gameLoop st) Hr' He') as (H1 & H2 & H3); [lia|].
    repeat split; [exact H1 | exact H2 | lia].
Qed.

(** X12.  After a restart of a started game the pool is empty and stays
    empty for the next 89 ticks, so the game cannot end during them: after
    [n <= 89] ticks it is running, without obstacles, with [spawnTimer]
    [n], score [2 n] and speed 3. *)
Theorem restart_grace_period (st : Game) (id : positive) (n : nat) :
  animationFrameId st = Some id -> (n < 90)%nat ->
  running (ticks n (resetGame st)) = true /\
  enemies (ticks n (resetGame st)) = [] /\
  spawnTimer (ticks n (resetGame st)) = Z.of_nat n /\
  score (ticks n (resetGame st)) = 2 * Z.of_nat n /\
  speed (ticks n (resetGame st)) = 3%Q.
Proof.
  intros Hid Hn.
  assert (Hreset : running (resetGame st) = true /\
                   enemies (resetGame st) = [] /\
                   spawnTimer (resetGame st) = 0 /\
                   score (resetGame st) = 0 /\ speed (resetGame st) = 3%Q).
  { unfold resetGame. cbv zeta. simpl animationFrameId. rewrite Hid.
    repeat split. }
  destruct Hreset as (Hr & He & Ht & Hsc & Hsp).
  destruct (quiet_ticks n (resetGame st) Hr He) as (H1 & H2 & H3).
  { rewrite Ht. unfold spawnInterval. lia. }
  destruct (ticks_first_500 (resetGame st) n Hsc Hsp) as [H4 H5];
    [lia | exact H1 |].
  repeat split; [exact H1 | exact H2 | lia | exact H4 |].
  rewrite H5. destruct (Nat.ltb_spec n 500); [reflexivity | lia].
Qed.

Lemma floor_speed_ge_2 (s : Q) : (3 <= s)%Q -> 2 <= Math_floor (s / (3 # 2)).
Proof.
  intros Hs. unfold Math_floor.
  change 2 with (Qfloor 2). apply Qfloor_resp_le.
  apply Qle_shift_div_l; lra.
Qed.

(** X13.  At a speed of at least 3, the least the page ever has, every
    tick of a running game adds at least 2 to the score: a game that is
    still running after [n] ticks has gained at least [2 n]. *)
Theorem score_gains_two_per_tick (st : Game) (n : nat) :
  (3 <= speed st)%Q -> running (ticks n st) = true ->
  score st + 2 * Z.of_nat n <= score (ticks n st).
Proof.
  intros Hs. induction n as [|n IH]; intros Hr.
  - simpl. lia.
  - pose proof (ticks_running_earlier n st Hr) as Hr'.
    specialize (IH Hr').
    rewrite ticks_succ_r, gameLoop_score, Hr', (update_score _ Hr').
    assert (Hsn : (3 <= speed (ticks n st))%Q)
      by (apply Qle_trans with (speed st); [exact Hs | apply ticks_speed_le]).
    pose proof (floor_speed_ge_2 _ Hsn). lia.
Qed.

(** ** Lanes and collisions *)

Lemma overlaps_centred_same_lane (l : Layout) (p : Player.t) (e : Enemy.t) :
  (0 < laneWidth l)%Q ->
  (Player.w p + Enemy.w e <= 2 * laneWidth l)%Q ->
  Player.x p = laneCenter l (Player.lane p) ->
  Enemy.x e = laneCenter l (Enemy.lane e) ->
  overlaps p e = true ->
  Player.lane p = Enemy.lane e.
Proof.
  intros Hlw Hw Hpx Hex Hov.
  apply overlaps_spec in Hov. cbv zeta in Hov.
  destruct Hov as (H1 & H2 & _). rewrite Hpx, Hex in H1, H2.
  unfold laneCenter in H1, H2.
  destruct (Z.lt_trichotomy (Player.lane p) (Enemy.lane e))
    as [Hlt | [Heq | Hgt]]; [exfalso | exact Heq | exfalso].
  - assert (Hq : (inject_Z (Player.lane p) + 1 <= inject_Z (Enemy.lane e))%Q).
    { change 1%Q with (inject_Z 1). rewrite <- inject_Z_plus, <- Zle_Qle.
      lia. }
    assert (Hm : (0 <= inject_Z (Enemy.lane e) * laneWidth l
                      - inject_Z (Player.lane p) * laneWidth l
                      - laneWidth l)%Q).
    { setoid_replace (inject_Z (Enemy.lane e) * laneWidth l
                      - inject_Z (Player.lane p) * laneWidth l
                      - laneWidth l)%Q
        with ((inject_Z (Enemy.lane e) - inject_Z (Player.lane p) - 1)
              * laneWidth l)%Q by ring.
      apply Qmult_le_0_compat; lra. }
    set (a := (inject_Z (Enemy.lane e) * laneWidth l)%Q) in *.
    set (b := (inject_Z (Player.lane p) * laneWidth l)%Q) in *.
    unfold Qdiv in H1, H2. change (/ 2)%Q with (1 # 2)%Q in H1, H2. lra.
  - assert (Hq : (inject_Z (Enemy.lane e) + 1 <= inject_Z (Player.lane p))%Q).
    { change 1%Q with (inject_Z 1). rewrite <- inject_Z_plus, <- Zle_Qle.
      lia. }
    assert (Hm : (0 <= inject_Z (Player.lane p) * laneWidth l
                      - inject_Z (Enemy.lane e) * laneWidth l
                      - laneWidth l)%Q).
    { setoid_replace (inject_Z (Player.lane p) * laneWidth l
                      - inject_Z (Enemy.lane e) * laneWidth l
                      - laneWidth l)%Q
        with ((inject_Z (Player.lane p) - inject_Z (Enemy.lane e) - 1)
              * laneWidth l)%Q by ring.
      apply Qmult_le_0_compat; lra. }
    set (a := (inject_Z (Enemy.lane e) * laneWidth l)%Q) in *.
    set (b := (inject_Z (Player.lane p) * laneWidth l)%Q) in *.
    unfold Qdiv in H1, H2. change (/ 2)%Q with (1 # 2)%Q in H1, H2. lra.
Qed.


(** ** The preload script *)

Lemma digitChar_spec (d : Z) :
  0 <= d <= 9 ->
  isDigit (digitChar d) = true /\ isBlank (digitChar d) = false /\
  Z.of_nat (nat_of_ascii (digitChar d) - 48) = d /\
  digitChar d <> "-"%char /\ digitChar d <> "+"%char.
Proof.
  intros Hd.
  assert (Hc : d = 0 \/ d = 1 \/ d = 2 \/ d = 3 \/ d = 4 \/ d = 5 \/ d = 6 \/
               d = 7 \/ d = 8 \/ d = 9) by lia.
  repeat (destruct Hc as [-> | Hc]); try subst d;
    (repeat split; [reflexivity .. | discriminate | discriminate]).
Qed.

Lemma parseDigits_digitsAux (f : nat) (n : Z) (acc : string) :
  0 <= n < 2 ^ Z.of_nat (S f) ->
  exists m : Z,
    forall (seen : bool) (a : Z),
      parseDigits (digitsAux (S f) n acc) seen a =
      parseDigits acc true (a * m + n).
Proof.
  revert n acc. induction f as [|f IH]; intros n acc Hn.
  - assert (Hlt : n < 10) by (change (2 ^ Z.of_nat 1) with 2 in Hn; lia).
    exists 10. intros seen a. cbn [digitsAux].
    destruct (Z.ltb_spec n 10); [|lia].
    rewrite Z.mod_small by lia. cbn [parseDigits].
    destruct (digitChar_spec n) as (-> & _ & -> & _); [lia|]. reflexivity.
  - cbn [digitsAux]. destruct (Z.ltb_spec n 10) as [Hlt | Hge].
    + exists 10. intros seen a. rewrite Z.mod_small by lia.
      cbn [parseDigits].
      destruct (digitChar_spec n) as (-> & _ & -> & _); [lia|]. reflexivity.
    + assert (Hdiv : 0 <= n / 10 < 2 ^ Z.of_nat (S f)).
      { split; [apply Z.div_pos; lia|].
        apply Z.div_lt_upper_bound; [lia|].
        rewrite (Nat2Z.inj_succ (S f)), Z.pow_succ_r in Hn by lia. lia. }
      destruct (IH (n / 10) (String (digitChar (n mod 10)) acc) Hdiv)
        as [m Hm].
      exists (m * 10). intros seen a. rewrite Hm. cbn [parseDigits].
      pose proof (Z.mod_pos_bound n 10 ltac:(lia)) as Hmod.
      destruct (digitChar_spec (n mod 10)) as (-> & _ & -> & _); [lia|].
      f_equal. pose proof (Z.div_mod n 10 ltac:(lia)). lia.
Qed.

Lemma digitsAux_head (f : nat) (n : Z) (acc : string) :
  0 <= n ->
  exists (d : Z) (r : string),
    0 <= d <= 9 /\ digitsAux (S f) n acc = String (digitChar d) r.
Proof.
  revert n acc. induction f as [|f IH]; intros n acc Hn; cbn [digitsAux].
  - exists (n mod 10), acc.
    split; [pose proof (Z.mod_pos_bound n 10 ltac:(lia)); lia|].
    destruct (n <? 10); reflexivity.
  - destruct (n <? 10).
    + exists (n mod 10), acc.
      split; [pose proof (Z.mod_pos_bound n 10 ltac:(lia)); lia|].
      reflexivity.
    + apply IH. apply Z.div_pos; lia.
Qed.

Lemma digitsAux_app (f : nat) (n : Z) (acc rest : string) :
  (digitsAux f n acc ++ rest)%string = digitsAux f n (acc ++ rest)%string.
Proof.
  revert n acc. induction f as [|f IH]; intros n acc; cbn [digitsAux].
  - reflexivity.
  - destruct (n <? 10); [reflexivity|]. rewrite IH. reflexivity.
Qed.

Lemma digits_fuel (n : Z) :
  0 <= n -> 0 <= n < 2 ^ Z.of_nat (S (Z.to_nat (Z.log2 n))).
Proof.
  intros Hn. split; [exact Hn|].
  rewrite Nat2Z.inj_succ, Z2Nat.id by apply Z.log2_nonneg.
  destruct (Z.eq_dec n 0) as [-> | Hne]; [reflexivity|].
  apply Z.log2_spec. lia.
Qed.

Lemma parseDigits_rest (rest : string) (v : Z) :
  noLeadingDigit rest = true -> parseDigits rest true v = Some v.
Proof.
  destruct rest as [|c r]; simpl; [reflexivity|].
  intros Hc. apply negb_true_iff in Hc. rewrite Hc. reflexivity.
Qed.

Lemma parseInt_digits (n : Z) (rest : string) :
  0 <= n -> noLeadingDigit rest = true ->
  parseInt (digits n ++ rest) = Some n /\
  parseDigits (digits n ++ rest) false 0 = Some n.
Proof.
  intros Hn Hrest. unfold digits. rewrite digitsAux_app. cbn [append].
  destruct (parseDigits_digitsAux _ n rest (digits_fuel n Hn)) as [m Hm].
  assert (Hp : parseDigits
                 (digitsAux (S (Z.to_nat (Z.log2 n))) n rest) false 0 = Some n).
  { rewrite Hm. replace (0 * m + n) with n by lia.
    now apply parseDigits_rest. }
  split; [|exact Hp].
  destruct (digitsAux_head (Z.to_nat (Z.log2 n)) n rest Hn)
    as (d & r & Hd & Heq).
  rewrite Heq in Hp |- *.
  destruct (digitChar_spec d Hd) as (_ & Hb & _ & Hm1 & Hp1).
  unfold parseInt. cbn [skipBlanks]. rewrite Hb.
  destruct (digitChar d) as [b0 b1 b2 b3 b4 b5 b6 b7] eqn:Hc.
  destruct b0, b1, b2, b3, b4, b5, b6, b7;
    try exact Hp; congruence.
Qed.

Lemma parseInt_String_rest (v : Z) (rest : string) :
  noLeadingDigit rest = true ->
  parseInt (String_of_number v ++ rest) = Some v.
Proof.
  intros Hrest. unfold String_of_number.
  destruct (Z.ltb_spec v 0) as [Hneg | Hpos].
  - cbn [append]. unfold parseInt. cbn [skipBlanks isBlank].
    change (isBlank "-") with false. cbv iota.
    destruct (parseInt_digits (- v) rest) as [_ ->]; [lia | exact Hrest |].
    simpl. f_equal. lia.
  - now apply parseInt_digits.
Qed.

Lemma append_empty (s : string) : (s ++ EmptyString)%string = s.
Proof.
  induction s as [|c r IH]; cbn [append]; [reflexivity|].
  rewrite IH. reflexivity.
Qed.

Lemma parseInt_String_of_number (v : Z) :
  parseInt (String_of_number v) = Some v.
Proof.
  rewrite <- (append_empty (String_of_number v)).
  now apply parseInt_String_rest.
Qed.

Lemma parseInt_no_digit (c : ascii) (r : string) :
  isBlank c = false -> isDigit c = false ->
  c <> "-"%char -> c <> "+"%char ->
  parseInt (String c r) = None.
Proof.
  intros Hb Hd Hm Hp. unfold parseInt. cbn [skipBlanks]. rewrite Hb.
  assert (Hr : parseDigits (String c r) false 0 = None)
    by (cbn [parseDigits]; rewrite Hd; reflexivity).
  destruct c as [b0 b1 b2 b3 b4 b5 b6 b7].
  destruct b0, b1, b2, b3, b4, b5, b6, b7; try exact Hr; congruence.
Qed.

(** X15.  [parseInt] reads back what [String] writes: for every integer
    [v] below 2^53 in absolute value, [parseInt(String(v) + rest, 10)] is
    [v] when [rest] is empty or starts with a character that is not a
    digit.  The empty string, and a string whose first character is an
    ASCII character that is neither a blank, a sign nor a digit, read as
    [NaN]. *)
Theorem parseInt_String (v : Z) (rest : string) :
  safeInteger v -> noLeadingDigit rest = true ->
  parseInt (String_of_number v ++ rest) = Some v /\
  parseInt EmptyString = None /\
  (forall (c : ascii) (r : string),
     (nat_of_ascii c < 128)%nat ->
     isBlank c = false -> isDigit c = false ->
     c <> "-"%char -> c <> "+"%char ->
     parseInt (String c r) = None).
Proof.
  intros _ Hrest. split; [now apply parseInt_String_rest|].
  split; [reflexivity|]. intros c r _. apply parseInt_no_digit.
Qed.

Lemma getItem_setItem_same (k v : string) (kvs : list (string * string)) :
  getItem k (setItem k v kvs) = Some v.
Proof.
  induction kvs as [|[k' v'] rest IH]; cbn [setItem getItem].
  - rewrite String.eqb_refl. reflexivity.
  - destruct (String.eqb_spec k' k) as [E | E]; cbn [getItem].
    + rewrite String.eqb_refl. reflexivity.
    + destruct (String.eqb_spec k' k); [contradiction | exact IH].
Qed.

Lemma getItem_setItem_other (k k0 v : string)
    (kvs : list (string * string)) :
  k0 <> k -> getItem k0 (setItem k v kvs) = getItem k0 kvs.
Proof.
  intros Hne. induction kvs as [|[k' v'] rest IH]; cbn [setItem getItem].
  - destruct (String.eqb_spec k k0); [congruence | reflexivity].
  - destruct (String.eqb_spec k' k) as [E | E]; cbn [getItem].
    + subst k'. destruct (String.eqb_spec k k0); [congruence | reflexivity].
    + rewrite IH. reflexivity.
Qed.

Lemma String_of_number_nonempty (v : Z) :
  (String_of_number v =? EmptyString)%string = false.
Proof.
  unfold String_of_number. destruct (v <? 0); [reflexivity|].
  unfold digits.
  destruct (Z.le_gt_cases 0 v) as [Hv | Hv].
  - destruct (digitsAux_head (Z.to_nat (Z.log2 v)) v EmptyString Hv)
      as (d & r & _ & ->). reflexivity.
  - cbn [digitsAux]. destruct (v <? 10); [reflexivity|].
    destruct v; try lia. reflexivity.
Qed.

Lemma getHighScore_after_set (v : Z) (s : Storage) :
  getItemThrows s = false -> setItemThrows s = false ->
  getHighScore (setHighScore v s) = Some v.
Proof.
  intros Hg Hs. unfold getHighScore, setHighScore. rewrite Hs.
  cbn [getItemThrows items]. rewrite Hg, getItem_setItem_same.
  rewrite String_of_number_nonempty. apply parseInt_String_of_number.
Qed.

(** X16.  What [setHighScore] stores, [getHighScore] returns: when the
    storage does not throw, the high score read after [setHighScore(v)]
    is [v], for every integer [v] below 2^53 in absolute value, whatever
    was stored before. *)
Theorem getHighScore_setHighScore (v : Z) (s : Storage) :
  getItemThrows s = false -> setItemThrows s = false -> safeInteger v ->
  getHighScore (setHighScore v s) = Some v.
Proof.
  intros Hg Hs _. now apply getHighScore_after_set.
Qed.

(** X17.  [getHighScore] is 0 when reading the storage throws, when
    nothing is stored and when the empty string is stored.
    [setHighScore] leaves the storage as it is when writing throws, and
    otherwise changes the item [brick_high] only. *)
Theorem preload_defaults (v : Z) (s : Storage) :
  (getItemThrows s = true -> getHighScore s = Some 0) /\
  (getItem "brick_high" (items s) = None -> getHighScore s = Some 0) /\
  (getItem "brick_high" (items s) = Some EmptyString ->
     getHighScore s = Some 0) /\
  (setItemThrows s = true -> setHighScore v s = s) /\
  (forall k : string,
     k <> "brick_high"%string ->
     getItem k (items (setHighScore v s)) = getItem k (items s)) /\
  getItemThrows (setHighScore v s) = getItemThrows s /\
  setItemThrows (setHighScore v s) = setItemThrows s.
Proof.
  unfold getHighScore, setHighScore.
  split; [intros ->; reflexivity|].
  split; [intros ->; destruct (getItemThrows s); reflexivity|].
  split; [intros ->; destruct (getItemThrows s); reflexivity|].
  split; [intros ->; reflexivity|].
  destruct (setItemThrows s) eqn:Hs; cbn [items getItemThrows setItemThrows];
    repeat split; auto.
  intros k Hk. now apply getItem_setItem_other.
Qed.

Lemma persist_flags (calls : list Z) (s : Storage) :
  getItemThrows (persist calls s) = getItemThrows s /\
  setItemThrows (persist calls s) = setItemThrows s.
Proof.
  unfold persist. revert s.
  induction calls as [|v rest IH]; intros s; cbn [fold_left].
  - now split.
  - destruct (IH (setHighScore v s)) as [-> ->].
    unfold setHighScore. destruct (setItemThrows s) eqn:Hs;
      cbn [getItemThrows setItemThrows]; auto.
Qed.

Lemma persist_snoc (calls : list Z) (v : Z) (s : Storage) :
  persist (calls ++ [v]) s = setHighScore v (persist calls s).
Proof. unfold persist. rewrite fold_left_app. reflexivity. Qed.

Lemma endGame_sync (st : Game) :
  hasSetHighScore (host st) = true ->
  (highScore (endGame st) = highScore st /\
   setHighScoreCalls (host (endGame st)) = setHighScoreCalls (host st)) \/
  setHighScoreCalls (host (endGame st)) =
    setHighScoreCalls (host st) ++ [highScore (endGame st)].
Proof.
  intros Hapi. unfold endGame; simpl.
  destruct (score st >? highScore st); simpl; [|now left].
  rewrite Hapi. simpl. now right.
Qed.

Lemma gameLoop_sync (st : Game) :
  hasSetHighScore (host st) = true ->
  (highScore (gameLoop st) = highScore st /\
   setHighScoreCalls (host (gameLoop st)) = setHighScoreCalls (host st)) \/
  setHighScoreCalls (host (gameLoop st)) =
    setHighScoreCalls (host st) ++ [highScore (gameLoop st)].
Proof.
  intros Hapi. unfold gameLoop. destruct (running st) eqn:Hr; simpl;
    [|now left].
  rewrite (update_running st Hr). cbv zeta.
  remember (beforeCollision st) as st1 eqn:E1.
  destruct (beforeCollision_frame st)
    as (_ & _ & Hh & _ & _ & _ & Hapi1 & Hcalls & _).
  rewrite <- E1 in Hh, Hapi1, Hcalls. simpl.
  destruct (collisionLoop_cases (enemies st1) st1) as [-> | ->].
  - left. now split.
  - rewrite <- Hh, <- Hcalls. apply endGame_sync. now rewrite Hapi1.
Qed.

Lemma gameLoop_api (st : Game) :
  hasSetHighScore (host (gameLoop st)) = hasSetHighScore (host st).
Proof.
  unfold gameLoop. destruct (running st) eqn:Hr; simpl; [|reflexivity].
  apply (update_host st Hr).
Qed.

Lemma step_sync (a : Action) (st : Game) :
  hasSetHighScore (host st) = true ->
  hasSetHighScore (host (step a st)) = true /\
  ((highScore (step a st) = highScore st /\
    setHighScoreCalls (host (step a st)) = setHighScoreCalls (host st)) \/
   setHighScoreCalls (host (step a st)) =
     setHighScoreCalls (host st) ++ [highScore (step a st)]).
Proof.
  intros Hapi. destruct a as [|now key| |]; cbn [step].
  - split; [now rewrite gameLoop_api | now apply gameLoop_sync].
  - destruct (keydown_frame_fields now key st)
      as (_ & -> & _ & _ & _ & -> & _). split; [exact Hapi | now left].
  - unfold resetGame. cbv zeta. simpl animationFrameId.
    destruct (animationFrameId st).
    + simpl. split; [exact Hapi | now left].
    + match goal with |- context [gameLoop ?s] =>
        pose proof (gameLoop_api s) as Ha;
        pose proof (gameLoop_sync s Hapi) as Hc end.
      split; [rewrite Ha; exact Hapi | exact Hc].
  - split; [destruct (endGame_host st) as (_ & _ & _ & ->); exact Hapi|].
    now apply endGame_sync.
Qed.

(** X18.  The stored high score follows the one on the page.  The host
    exposes [setHighScore], the storage does not throw, and the stored
    value read by [getHighScore] is the page's high score; then after
    anything that happens to the page, and the calls to [setHighScore] it
    makes, [getHighScore] still returns the page's high score, as long as
    the scores stored are below 2^53. *)
Theorem stored_high_score_in_sync (acts : list Action) (st : Game)
    (s : Storage) :
  hasSetHighScore (host st) = true ->
  getItemThrows s = false -> setItemThrows s = false ->
  getHighScore (persist (setHighScoreCalls (host st)) s) =
    Some (highScore st) ->
  Forall safeInteger (setHighScoreCalls (host (run acts st))) ->
  getHighScore (persist (setHighScoreCalls (host (run acts st))) s) =
    Some (highScore (run acts st)).
Proof.
  intros Hapi Hg Hs. revert st Hapi.
  induction acts as [|a rest IH]; intros st Hapi Hsync Hsafe;
    cbn [run] in *; [exact Hsync|].
  destruct (step_sync a st Hapi) as [Hapi' Hcases].
  apply IH; [exact Hapi' | | exact Hsafe].
  destruct Hcases as [[Hh Hc] | Hc].
  - rewrite Hc, Hh. exact Hsync.
  - rewrite Hc, persist_snoc.
    destruct (persist_flags (setHighScoreCalls (host st)) s) as [Hg' Hs'].
    apply getHighScore_after_set; congruence.
Qed.

(** ** Resizing *)

Lemma Math_max_spec (a b : Q) :
  (a <= Math_max a b)%Q /\ (b <= Math_max a b)%Q /\
  (Math_max a b = a \/ Math_max a b = b).
Proof.
  unfold Math_max. destruct (Qltb a b) eqn:E.
  - apply Qltb_true in E. repeat split; [lra | lra | now right].
  - apply Qltb_false in E. repeat split; [lra | lra | now left].
Qed.

Lemma Math_min_spec (a b : Q) :
  (Math_min a b <= a)%Q /\ (Math_min a b <= b)%Q /\
  (Math_min a b = a \/ Math_min a b = b).
Proof.
  unfold Math_min. destruct (Qltb b a) eqn:E.
  - apply Qltb_true in E. repeat split; [lra | lra | now right].
  - apply Qltb_false in E. repeat split; [lra | lra | now left].
Qed.

Lemma Math_round_spec (a : Q) :
  (a - (1 # 2) < inject_Z (Math_round a))%Q /\
  (inject_Z (Math_round a) <= a + (1 # 2))%Q.
Proof.
  unfold Math_round. split.
  - pose proof (Qlt_floor (a + (1 # 2))) as Hlt.
    rewrite inject_Z_plus in Hlt. change (inject_Z 1) with 1%Q in Hlt. lra.
  - apply Qfloor_le.
Qed.

Lemma clamp_spec (lo hi x : Q) :
  (lo <= hi)%Q ->
  (lo <= Math_max lo (Math_min x hi) <= hi)%Q.
Proof.
  intros Hlh.
  destruct (Math_max_spec lo (Math_min x hi)) as (H1 & _ & Hc).
  destruct (Math_min_spec x hi) as (_ & H3 & _).
  split; [exact H1|]. destruct Hc as [E | E]; rewrite E; assumption.
Qed.

Lemma margin_spec (w : Q) :
  (320 <= w)%Q ->
  let margin := Math_max 20 (inject_Z (Math_round (w * (3 # 50)))) in
  (20 <= margin)%Q /\ (280 <= w - margin * 2)%Q /\
  ((margin <= w * (3 # 50) + (1 # 2))%Q \/ margin = 20%Q).
Proof.
  intros Hw margin.
  destruct (Math_round_spec (w * (3 # 50))) as [_ Hr].
  destruct (Math_max_spec 20 (inject_Z (Math_round (w * (3 # 50)))))
    as (H1 & _ & [E | E]); fold margin in H1, E.
  - rewrite E. repeat split; try lra. now right.
  - repeat split; try lra; [rewrite E; lra | left; rewrite E; lra].
Qed.

Lemma resizeCanvas_layout (iw ih : Q) (pg : Page) :
  let l := layout (game (resizeCanvas iw ih pg)) in
  (320 <= W l <= 1600)%Q /\ (240 <= H l <= 1100)%Q /\
  (20 <= roadMargin l)%Q /\
  (roadMargin l * 2 + 3 * laneWidth l == W l)%Q /\
  (280 <= 3 * laneWidth l)%Q.
Proof.
  unfold resizeCanvas. cbv zeta. cbn [game layout set_enemies set_player
    set_layout W H roadMargin laneWidth].
  set (cssW := Math_max 320 (Math_min (iw * (19 # 20)) 1600)).
  set (cssH := Math_max 240 (Math_min (ih * (9 # 10)) 1100)).
  assert (HW : (320 <= cssW <= 1600)%Q) by (apply clamp_spec; lra).
  assert (HH : (240 <= cssH <= 1100)%Q) by (apply clamp_spec; lra).
  destruct (margin_spec cssW (proj1 HW)) as (Hm1 & Hm2 & _).
  set (margin := Math_max 20 (inject_Z (Math_round (cssW * (3 # 50)))))
    in *.
  assert (Hinner : (Math_max 100 (cssW - margin * 2) == cssW - margin * 2)%Q).
  { destruct (Math_max_spec 100 (cssW - margin * 2)) as (_ & _ & [E | E]);
      rewrite E; [|reflexivity].
    destruct (Math_max_spec 100 (cssW - margin * 2)) as (_ & H2 & _).
    rewrite E in H2. lra. }
  assert (Hlw : (3 * (Math_max 100 (cssW - margin * 2) / inject_Z lanes)
                 == cssW - margin * 2)%Q).
  { change (inject_Z lanes) with 3%Q. rewrite <- Hinner at 2. field. }
  repeat split; try lra.
Qed.

(** X19.  Whatever the size of the window, [resizeCanvas] leaves a canvas
    between 320 and 1600 wide and between 240 and 1100 high, a margin of
    at least 20 and three lanes, each more than 93 wide; the centre of
    every lane is on the road, between the two margins. *)
Theorem resizeCanvas_road (iw ih : Q) (pg : Page) :
  let l := layout (game (resizeCanvas iw ih pg)) in
  (320 <= W l <= 1600)%Q /\ (240 <= H l <= 1100)%Q /\
  (20 <= roadMargin l)%Q /\
  (93 < laneWidth l)%Q /\
  (forall lane : Z, 0 <= lane <= lanes - 1 ->
     (roadMargin l < laneCenter l lane < W l - roadMargin l)%Q).
Proof.
  intros l.
  destruct (resizeCanvas_layout iw ih pg) as (HW & HH & Hm & Hsum & Hlw).
  fold l in HW, HH, Hm, Hsum, Hlw.
  do 4 (split; [lra|]).
  intros lane Hlane. unfold lanes in Hlane. unfold laneCenter.
  assert (H0 : (0 <= inject_Z lane)%Q)
    by (change 0%Q with (inject_Z 0); rewrite <- Zle_Qle; lia).
  assert (H2 : (inject_Z lane <= 2)%Q)
    by (change 2%Q with (inject_Z 2); rewrite <- Zle_Qle; lia).
  assert (Hp : (0 <= inject_Z lane * laneWidth l)%Q)
    by (apply Qmult_le_0_compat; lra).
  assert (Hq : (0 <= 2 * laneWidth l - inject_Z lane * laneWidth l)%Q).
  { setoid_replace (2 * laneWidth l - inject_Z lane * laneWidth l)%Q
      with ((2 - inject_Z lane) * laneWidth l)%Q by ring.
    apply Qmult_le_0_compat; lra. }
  unfold Qdiv. change (/ 2)%Q with (1 # 2)%Q.
  set (a := (inject_Z lane * laneWidth l)%Q) in *. split; lra.
Qed.

Lemma map_set_x_lane (l : Layout) (es : list Enemy.t) :
  let es' := map (fun e => Enemy.set_x (laneCenter l (Enemy.lane e)) e) es in
  map Enemy.lane es' = map Enemy.lane es /\
  map Enemy.y es' = map Enemy.y es /\
  map Enemy.w es' = map Enemy.w es /\
  map Enemy.h es' = map Enemy.h es.
Proof.
  cbv zeta. rewrite !map_map. repeat split; apply map_ext; reflexivity.
Qed.

(** X20.  [resizeCanvas] touches the layout and the pixel positions and
    sizes only: score, speed, high score, timers, the [running] flag, the
    loop handle and the host are as before, the player keeps its lane,
    and the pool keeps its obstacles in order, each with its lane, [y],
    width and height. *)
Theorem resizeCanvas_keeps_simulation (iw ih : Q) (pg : Page) :
  let st := game pg in
  let st' := game (resizeCanvas iw ih pg) in
  images (resizeCanvas iw ih pg) = images pg /\
  host st' = host st /\ running st' = running st /\
  score st' = score st /\ speed st' = speed st /\
  highScore st' = highScore st /\
  animationFrameId st' = animationFrameId st /\
  spawnTimer st' = spawnTimer st /\ stripeOffset st' = stripeOffset st /\
  lastMoveTime st' = lastMoveTime st /\
  Player.lane (player st') = Player.lane (player st) /\
  map Enemy.lane (enemies st') = map Enemy.lane (enemies st) /\
  map Enemy.y (enemies st') = map Enemy.y (enemies st) /\
  map Enemy.w (enemies st') = map Enemy.w (enemies st) /\
  map Enemy.h (enemies st') = map Enemy.h (enemies st).
Proof.
  cbv zeta. unfold resizeCanvas. cbv zeta.
  cbn [game images set_enemies set_player set_layout host running score
       speed highScore animationFrameId spawnTimer stripeOffset
       lastMoveTime player enemies Player.lane].
  do 11 (split; [reflexivity|]). apply map_set_x_lane.
Qed.

Lemma carSize_height (loaded : bool) (natural : positive * positive)
    (h : Q) :
  (0 <= h)%Q ->
  (40 <= snd (carSize loaded natural h))%Q /\
  (snd (carSize loaded natural h) = 40%Q \/
   (snd (carSize loaded natural h) <= h * (7 # 50) + (1 # 2))%Q).
Proof.
  intros Hh. unfold carSize, targetHeight.
  destruct loaded; cbn [snd].
  - destruct (Math_max_spec 40 (inject_Z (Math_round (h * (7 # 50)))))
      as (H1 & _ & [E | E]); rewrite E in *.
    + split; [lra | now left].
    + split; [exact H1 | right].
      destruct (Math_round_spec (h * (7 # 50))) as [_ Hr]. exact Hr.
  - destruct (Math_max_spec 40 (inject_Z (Math_round (h * (3 # 25)))))
      as (H1 & _ & [E | E]); rewrite E in *.
    + split; [lra | now left].
    + split; [exact H1 | right].
      destruct (Math_round_spec (h * (3 # 25))) as [_ Hr]. lra.
Qed.

Lemma carSize_width_no_image (natural : positive * positive) (h : Q) :
  (h <= 1100)%Q ->
  (30 <= fst (carSize false natural h) <= 80)%Q.
Proof.
  intros Hh. unfold carSize. cbn [fst].
  set (ch := Math_max 40 (inject_Z (Math_round (h * (3 # 25))))).
  assert (Hch : (ch <= 265 # 2)%Q).
  { unfold ch.
    destruct (Math_max_spec 40 (inject_Z (Math_round (h * (3 # 25)))))
      as (_ & _ & [E | E]); rewrite E; [lra|].
    destruct (Math_round_spec (h * (3 # 25))) as [_ Hr]. lra. }
  destruct (Math_max_spec 30 (inject_Z (Math_round (ch * (3 # 5)))))
    as (H1 & _ & [E | E]); rewrite E in *; [lra|].
  split; [exact H1|].
  destruct (Math_round_spec (ch * (3 # 5))) as [_ Hr]. lra.
Qed.

(** X21.  After [resizeCanvas] the player and every obstacle sit on the
    centre of their lane in the new layout, and the player's box is on
    the canvas from top to bottom: its height is at least 40 and its top
    and bottom edges are strictly between 0 and [H]. *)
Theorem resizeCanvas_positions (iw ih : Q) (pg : Page) :
  let st' := game (resizeCanvas iw ih pg) in
  let p := player st' in
  Player.x p = laneCenter (layout st') (Player.lane p) /\
  Forall (fun e : Enemy.t =>
            Enemy.x e = laneCenter (layout st') (Enemy.lane e))
         (enemies st') /\
  (40 <= Player.h p)%Q /\
  (0 < Player.y p - Player.h p / 2)%Q /\
  (Player.y p + Player.h p / 2 < H (layout st'))%Q.
Proof.
  cbv zeta.
  destruct (resizeCanvas_layout iw ih pg) as (_ & HH & _).
  cbv zeta in HH. revert HH.
  unfold resizeCanvas. cbv zeta.
  cbn [game set_enemies set_player set_layout layout player enemies
       Player.x Player.y Player.h Player.lane H].
  set (cssH := Math_max 240 (Math_min (ih * (9 # 10)) 1100)).
  intros HH.
  split; [reflexivity|]. split.
  { apply Forall_forall. intros e He. apply in_map_iff in He.
    destruct He as (o & <- & _). reflexivity. }
  destruct (carSize_height (playerImgLoaded (images pg))
              (playerImgNatural (images pg)) cssH) as (Hh1 & Hh2); [lra|].
  destruct (Math_round_spec (cssH * (9 # 50))) as [Hr1 Hr2].
  set (ph := snd (carSize (playerImgLoaded (images pg))
                          (playerImgNatural (images pg)) cssH)) in *.
  set (r := inject_Z (Math_round (cssH * (9 # 50)))) in *.
  unfold Qdiv. change (/ 2)%Q with (1 # 2)%Q.
  split; [exact Hh1|].
  destruct Hh2 as [E | Hle]; [rewrite E in *|]; split; lra.
Qed.

Lemma Player_eq (a b : Player.t) :
  Player.lane a = Player.lane b -> Player.x a = Player.x b ->
  Player.y a = Player.y b -> Player.w a = Player.w b ->
  Player.h a = Player.h b -> a = b.
Proof. destruct a, b; simpl; intros; subst; reflexivity. Qed.

Lemma Layout_eq (a b : Layout) :
  W a = W b -> H a = H b -> laneWidth a = laneWidth b ->
  roadMargin a = roadMargin b -> enemyDefaultW a = enemyDefaultW b ->
  enemyDefaultH a = enemyDefaultH b -> a = b.
Proof. destruct a, b; simpl; intros; subst; reflexivity. Qed.

Lemma Game_eq (a b : Game) :
  layout a = layout b -> host a = host b -> running a = running b ->
  score a = score b -> speed a = speed b -> highScore a = highScore b ->
  animationFrameId a = animationFrameId b -> player a = player b ->
  enemies a = enemies b -> spawnTimer a = spawnTimer b ->
  stripeOffset a = stripeOffset b -> lastMoveTime a = lastMoveTime b ->
  a = b.
Proof. destruct a, b; simpl; intros; subst; reflexivity. Qed.

Lemma Page_eq (a b : Page) :
  images a = images b -> game a = game b -> a = b.
Proof. destruct a, b; simpl; intros; subst; reflexivity. Qed.

Lemma map_set_x_twice (l : Layout) (es : list Enemy.t) :
  map (fun e => Enemy.set_x (laneCenter l (Enemy.lane e)) e)
      (map (fun e => Enemy.set_x (laneCenter l (Enemy.lane e)) e) es) =
  map (fun e => Enemy.set_x (laneCenter l (Enemy.lane e)) e) es.
Proof. rewrite map_map. apply map_ext. reflexivity. Qed.

Lemma resizeCanvas_fixed (iw ih : Q) (pg : Page) :
  resizeCanvas iw ih (resizeCanvas iw ih pg) = resizeCanvas iw ih pg.
Proof.
  apply Page_eq; [reflexivity|].
  apply Game_eq; try reflexivity.
  unfold resizeCanvas. cbv zeta. cbn [game enemies set_enemies].
  apply map_set_x_twice.
Qed.

(** X22.  [resizeCanvas] is idempotent: a second call for the same window
    size changes nothing. *)
Theorem resizeCanvas_idempotent (iw ih : Q) (pg : Page) :
  resizeCanvas iw ih (resizeCanvas iw ih pg) = resizeCanvas iw ih pg.
Proof. exact (resizeCanvas_fixed iw ih pg). Qed.

Lemma resizeCanvas_centred (iw ih : Q) (pg : Page) :
  let st' := game (resizeCanvas iw ih pg) in
  Player.x (player st') = laneCenter (layout st') (Player.lane (player st')) /\
  forall e : Enemy.t,
    In e (enemies st') ->
    Enemy.x e = laneCenter (layout st') (Enemy.lane e).
Proof.
  cbv zeta. split; [reflexivity|].
  intros e He. unfold resizeCanvas in He. cbv zeta in He.
  cbn [game enemies set_enemies] in He.
  apply in_map_iff in He. destruct He as (o & <- & _). reflexivity.
Qed.

Lemma resizeCanvas_widths (iw ih : Q) (pg : Page) :
  let st' := game (resizeCanvas iw ih pg) in
  (trafficImgLoaded (images pg) = false ->
     (enemyDefaultW (layout st') <= 80)%Q) /\
  (playerImgLoaded (images pg) = false ->
     (Player.w (player st') <= 80)%Q).
Proof.
  cbv zeta.
  destruct (resizeCanvas_layout iw ih pg) as (_ & HH & _).
  cbv zeta in HH. revert HH.
  unfold resizeCanvas. cbv zeta.
  cbn [game set_enemies set_player set_layout layout player
       Player.w enemyDefaultW H].
  intros HH. split; intros ->; apply carSize_width_no_image; lra.
Qed.

(** X23.  Without the player's image the player is at most 80 wide after
    [resizeCanvas], and without the obstacles' image so is the default
    obstacle; a lane is more than 93 wide.  So the player can then overlap
    an obstacle at most 80 wide only in its own lane. *)
Theorem resizeCanvas_no_image_same_lane (iw ih : Q) (pg : Page) :
  let st' := game (resizeCanvas iw ih pg) in
  (trafficImgLoaded (images pg) = false ->
     (enemyDefaultW (layout st') <= 80)%Q) /\
  (playerImgLoaded (images pg) = false ->
     (Player.w (player st') <= 80)%Q /\
     forall e : Enemy.t,
       In e (enemies st') -> (Enemy.w e <= 80)%Q ->
       overlaps (player st') e = true ->
       Player.lane (player st') = Enemy.lane e).
Proof.
  cbv zeta.
  destruct (resizeCanvas_layout iw ih pg) as (_ & _ & _ & _ & Hlw).
  destruct (resizeCanvas_centred iw ih pg) as [Hpx Hex].
  destruct (resizeCanvas_widths iw ih pg) as [Hew Hpw].
  cbv zeta in Hlw, Hpx, Hex, Hew, Hpw.
  set (st' := game (resizeCanvas iw ih pg)) in *. clearbody st'.
  split; [exact Hew|]. intros Hp. specialize (Hpw Hp).
  split; [exact Hpw|]. intros e He Hw Hov.
  apply (overlaps_centred_same_lane (layout st'));
    [lra | lra | exact Hpx | exact (Hex e He) | exact Hov].
Qed.

Lemma Qeq_bool_ge_240 (h : Q) : (240 <= h)%Q -> Qeq_bool h 0 = false.
Proof.
  intros Hh. destruct (Qeq_bool h 0) eqn:E; [|reflexivity].
  apply Qeq_bool_iff in E. lra.
Qed.

Lemma resized_page_facts (iw ih : Q) (pg1 : Page) :
  resizeCanvas iw ih pg1 = pg1 ->
  layout (game (resizeCanvas iw ih pg1)) = layout (game pg1) /\
  player (game (resizeCanvas iw ih pg1)) = player (game pg1) /\
  enemies (game (resizeCanvas iw ih pg1)) = enemies (game pg1).
Proof.
  intros Hfix. rewrite Hfix. repeat split.
Qed.

Lemma image_load_then_resize_player (iw ih : Q) (nw nh : positive)
    (pg1 : Page) :
  resizeCanvas iw ih pg1 = pg1 ->
  resizeCanvas iw ih (onPlayerImgLoad nw nh pg1) = onPlayerImgLoad nw nh pg1.
Proof.
  intros Hfix.
  destruct (resizeCanvas_layout iw ih pg1) as (_ & HH & _).
  cbv zeta in HH.
  destruct (resized_page_facts iw ih pg1 Hfix) as (Hlay & Hpl & Hen).
  rewrite Hlay in HH.
  apply Page_eq; [reflexivity|].
  apply Game_eq; try reflexivity.
  - exact Hlay.
  - apply Player_eq.
    + reflexivity.
    + exact (f_equal Player.x Hpl).
    + exact (f_equal Player.y Hpl).
    + unfold onPlayerImgLoad. cbv zeta. cbn [game player set_player Player.w].
      rewrite (Qeq_bool_ge_240 _ (proj1 HH)), <- Hlay. reflexivity.
    + unfold onPlayerImgLoad. cbv zeta. cbn [game player set_player Player.h].
      rewrite (Qeq_bool_ge_240 _ (proj1 HH)), <- Hlay. reflexivity.
  - exact Hen.
Qed.

Lemma resizeCanvas_road_indep (iw ih : Q) (pg pg' : Page) :
  W (layout (game (resizeCanvas iw ih pg))) =
    W (layout (game (resizeCanvas iw ih pg'))) /\
  H (layout (game (resizeCanvas iw ih pg))) =
    H (layout (game (resizeCanvas iw ih pg'))) /\
  laneWidth (layout (game (resizeCanvas iw ih pg))) =
    laneWidth (layout (game (resizeCanvas iw ih pg'))) /\
  roadMargin (layout (game (resizeCanvas iw ih pg))) =
    roadMargin (layout (game (resizeCanvas iw ih pg'))).
Proof.
  unfold resizeCanvas. cbv zeta.
  cbn [game layout set_enemies set_player set_layout W H laneWidth
       roadMargin].
  repeat split.
Qed.

Lemma resizeCanvas_player_dep (iw ih : Q) (pg pg' : Page) :
  playerImgLoaded (images pg) = playerImgLoaded (images pg') ->
  playerImgNatural (images pg) = playerImgNatural (images pg') ->
  Player.lane (player (game pg)) = Player.lane (player (game pg')) ->
  player (game (resizeCanvas iw ih pg)) =
  player (game (resizeCanvas iw ih pg')).
Proof.
  unfold resizeCanvas. cbv zeta.
  cbn [game player set_enemies set_player].
  intros -> -> ->. unfold laneCenter. cbn [roadMargin laneWidth].
  reflexivity.
Qed.

Lemma resizeCanvas_enemies_dep (iw ih : Q) (pg pg' : Page) :
  enemies (game pg) = enemies (game pg') ->
  enemies (game (resizeCanvas iw ih pg)) =
  enemies (game (resizeCanvas iw ih pg')).
Proof.
  unfold resizeCanvas. cbv zeta.
  cbn [game enemies set_enemies].
  intros ->. apply map_ext. intros e.
  unfold laneCenter. cbn [roadMargin laneWidth]. reflexivity.
Qed.

Lemma image_load_then_resize_traffic (iw ih : Q) (nw nh : positive)
    (pg1 : Page) :
  resizeCanvas iw ih pg1 = pg1 ->
  resizeCanvas iw ih (onTrafficImgLoad nw nh pg1) =
  onTrafficImgLoad nw nh pg1.
Proof.
  intros Hfix.
  destruct (resizeCanvas_layout iw ih pg1) as (_ & HH & _).
  cbv zeta in HH.
  destruct (resized_page_facts iw ih pg1 Hfix) as (Hlay & Hpl & Hen).
  rewrite Hlay in HH.
  destruct (resizeCanvas_road_indep iw ih (onTrafficImgLoad nw nh pg1) pg1)
    as (HW & HHt & Hlw & Hrm).
  assert (HHeq : H (layout (game (resizeCanvas iw ih
                                    (onTrafficImgLoad nw nh pg1)))) =
                 H (layout (game pg1)))
    by (rewrite HHt, Hlay; reflexivity).
  apply Page_eq; [reflexivity|].
  apply Game_eq.
  - apply Layout_eq.
    + rewrite HW, Hlay. reflexivity.
    + exact HHeq.
    + rewrite Hlw, Hlay. reflexivity.
    + rewrite Hrm, Hlay. reflexivity.
    + unfold onTrafficImgLoad at 2. cbv zeta.
      cbn [game layout set_layout enemyDefaultW].
      rewrite (Qeq_bool_ge_240 _ (proj1 HH)), <- HHeq. reflexivity.
    + unfold onTrafficImgLoad at 2. cbv zeta.
      cbn [game layout set_layout enemyDefaultH].
      rewrite (Qeq_bool_ge_240 _ (proj1 HH)), <- HHeq. reflexivity.
  - reflexivity.
  - reflexivity.
  - reflexivity.
  - reflexivity.
  - reflexivity.
  - reflexivity.
  - rewrite (resizeCanvas_player_dep iw ih (onTrafficImgLoad nw nh pg1) pg1)
      by reflexivity.
    exact Hpl.
  - rewrite (resizeCanvas_enemies_dep iw ih (onTrafficImgLoad nw nh pg1) pg1)
      by reflexivity.
    exact Hen.
  - reflexivity.
  - reflexivity.
  - reflexivity.
Qed.

(** X24.  The [load] handlers size the cars as [resizeCanvas] does: after
    a resize, the load of the player's image or of the obstacles' image
    leaves a page that a second resize for the same window does not
    change. *)
Theorem image_load_then_resize (iw ih : Q) (nw nh : positive) (pg : Page) :
  let pg1 := resizeCanvas iw ih pg in
  resizeCanvas iw ih (onPlayerImgLoad nw nh pg1) = onPlayerImgLoad nw nh pg1 /\
  resizeCanvas iw ih (onTrafficImgLoad nw nh pg1) = onTrafficImgLoad nw nh pg1.
Proof.
  cbv zeta. split.
  - apply image_load_then_resize_player, resizeCanvas_fixed.
  - apply image_load_then_resize_traffic, resizeCanvas_fixed.
Qed.

(** ** Start *)

Lemma gameLoop_running_fields (st : Game) :
  running st = true ->
  running (gameLoop st) = running (update st) /\
  spawnTimer (gameLoop st) = spawnTimer (update st) /\
  enemies (gameLoop st) = enemies (update st) /\
  stripeOffset (gameLoop st) = stripeOffset (update st) /\
  highScore (gameLoop st) = highScore (update st) /\
  layout (gameLoop st) = layout (update st) /\
  player (gameLoop st) = player (update st).
Proof.
  intros Hr. unfold gameLoop. rewrite Hr. repeat split.
Qed.

Lemma resetGame_first_tick (st : Game) :
  animationFrameId st = None ->
  running (resetGame st) = true /\
  score (resetGame st) = 2 /\
  speed (resetGame st) = 3%Q /\
  spawnTimer (resetGame st) = 1 /\
  enemies (resetGame st) = [] /\
  (stripeOffset (resetGame st) == 3)%Q /\
  animationFrameId (resetGame st) = Some (rafNext (host st)) /\
  highScore (resetGame st) = highScore st /\
  Player.lane (player (resetGame st)) = 1 /\
  layout (resetGame st) = layout st /\
  Player.x (player (resetGame st)) = laneCenter (layout st) 1.
Proof.
  intros Hid. rewrite (resetGame_first_call st Hid).
  set (s0 := set_running true
               (set_player (Player.set_lane 1 (player st))
                  (set_stripeOffset 0
                     (set_spawnTimer 0
                        (set_enemies [] (set_speed 3 (set_score 0 st))))))).
  assert (Hr : running s0 = true) by reflexivity.
  assert (Hpool : enemies (update s0) = [])
    by (rewrite (update_pool s0 Hr); reflexivity).
  destruct (gameLoop_running_fields s0 Hr)
    as (Gr & Gt & Ge & Gs & Gh & Gl & Gp).
  assert (Hrun : running (update s0) = true)
    by (rewrite (update_running_flag s0 Hr), Hpool; reflexivity).
  split; [rewrite Gr; exact Hrun|].
  split; [rewrite gameLoop_score, Hr, (update_score s0 Hr); reflexivity|].
  split; [rewrite gameLoop_speed, Hr, (update_speed s0 Hr); reflexivity|].
  split; [rewrite Gt, (update_spawnTimer s0 Hr); reflexivity|].
  split; [rewrite Ge; exact Hpool|].
  split.
  { rewrite Gs, (update_stripeOffset s0 Hr), (update_speed s0 Hr).
    reflexivity. }
  split; [exact (proj1 (gameLoop_raf s0))|].
  split.
  { rewrite Gh.
    destruct (update_highScore_cases s0 Hr) as [[_ Hh] | [Hstop _]];
      [exact Hh | rewrite Hrun in Hstop; discriminate Hstop]. }
  split; [rewrite gameLoop_lane; reflexivity|].
  split; [rewrite Gl, update_layout; reflexivity|].
  rewrite Gp, (update_player s0 Hr). reflexivity.
Qed.

(** X25.  The first [resetGame], made when the loop is not started,
    starts the loop and runs the first tick at once: it leaves the game
    running with score 2, speed 3, [spawnTimer] 1, [stripeOffset] 3, no
    obstacle and the player in lane 1, with the handle of the requested
    frame in [animationFrameId]; high score and layout are kept. *)
Theorem resetGame_first_call_state (st : Game) :
  animationFrameId st = None ->
  running (resetGame st) = true /\
  score (resetGame st) = 2 /\
  speed (resetGame st) = 3%Q /\
  spawnTimer (resetGame st) = 1 /\
  enemies (resetGame st) = [] /\
  (stripeOffset (resetGame st) == 3)%Q /\
  animationFrameId (resetGame st) = Some (rafNext (host st)) /\
  highScore (resetGame st) = highScore st /\
  Player.lane (player (resetGame st)) = 1 /\
  layout (resetGame st) = layout st.
Proof.
  intros Hid.
  destruct (resetGame_first_tick st Hid)
    as (H1 & H2 & H3 & H4 & H5 & H6 & H7 & H8 & H9 & H10 & _).
  repeat split; assumption.
Qed.

(** X26.  Start of the page.  On a page whose loop is not started, if the
    host exposes [getHighScore] and the stored value reads as the integer
    [v], the [DOMContentLoaded] handler leaves the game running with [v]
    as high score, the loop started, the road laid out for the window and
    the player on the centre of lane 1; without [getHighScore] the high
    score is the one the page had. *)
Theorem onDOMContentLoaded_starts (s : Storage) (iw ih : Q) (pg : Page)
    (v : Z) :
  animationFrameId (game pg) = None ->
  getHighScore s = Some v ->
  (exists pg' : Page,
     onDOMContentLoaded true s iw ih pg = Some pg' /\
     highScore (game pg') = v /\
     running (game pg') = true /\
     animationFrameId (game pg') = Some (rafNext (host (game pg))) /\
     enemies (game pg') = [] /\
     layout (game pg') = layout (game (resizeCanvas iw ih pg)) /\
     Player.lane (player (game pg')) = 1 /\
     Player.x (player (game pg')) = laneCenter (layout (game pg')) 1) /\
  (exists pg' : Page,
     onDOMContentLoaded false s iw ih pg = Some pg' /\
     highScore (game pg') = highScore (game pg) /\
     running (game pg') = true).
Proof.
  intros Hid Hget. unfold onDOMContentLoaded. rewrite Hget. split.
  - eexists. split; [reflexivity|]. cbn [game images].
    match goal with |- context [resetGame ?s] => set (s1 := s) end.
    assert (Hid1 : animationFrameId s1 = None) by exact Hid.
    assert (Hh1 : highScore s1 = v) by reflexivity.
    assert (Hraf : rafNext (host s1) = rafNext (host (game pg)))
      by reflexivity.
    assert (Hl1 : layout s1 = layout (game (resizeCanvas iw ih pg)))
      by reflexivity.
    clearbody s1.
    destruct (resetGame_first_tick s1 Hid1)
      as (Hr & _ & _ & _ & He & _ & Ha & Hh & Hl & Hlay & Hx).
    rewrite Hh, Ha, Hlay, Hx, Hh1, Hraf, Hl1. repeat split; assumption.
  - eexists. split; [reflexivity|]. cbn [game images].
    match goal with |- context [resetGame ?s] => set (s1 := s) end.
    assert (Hid1 : animationFrameId s1 = None) by exact Hid.
    assert (Hh1 : highScore s1 = highScore (game pg)) by reflexivity.
    clearbody s1.
    destruct (resetGame_first_tick s1 Hid1)
      as (Hr & _ & _ & _ & _ & _ & _ & Hh & _).
    rewrite Hh, Hh1. split; [reflexivity | exact Hr].
Qed.

(** ** The HUD *)

Lemma b64_hud_first_speed_ups :
  Forall (fun k : nat =>
            B64.hudSpeed (B64.speedUps k 3) =
            (B64.of_Z (30 + 2 * Z.of_nat k) / 10)%float)
         (seq 0 101).
Proof.
  cbv [seq]. repeat (constructor; [vm_compute; reflexivity|]). constructor.
Qed.

(** X27.  On doubles.  The speed [drawHUD] writes is
    [Math.round(speed * 10) / 10].  After [k] speed-ups from the 3 of a
    restart, for [k] up to 100, it is the double of the one-decimal number
    3 + 0.2 k, the quotient of the integer 30 + 2 k by 10, also where the
    speed itself has drifted from that double, as it has after the second
    speed-up. *)
Theorem hudSpeed_shows_tenths (k : nat) :
  (k <= 100)%nat ->
  B64.hudSpeed (B64.speedUps k 3) =
  (B64.of_Z (30 + 2 * Z.of_nat k) / 10)%float.
Proof.
  intros Hk.
  apply (proj1 (Forall_forall _ _) b64_hud_first_speed_ups k).
  apply in_seq. lia.
Qed.

(** * Concrete runs *)

Example started_state :
  score started = 2 /\ speed started = 3%Q /\ spawnTimer started = 1 /\
  running started = true /\ animationFrameId started = Some 1%positive.
Proof. repeat split. Qed.

(** At speed 4.6 the score grows by 3: from 998 it jumps over 1000 and the
    speed stays; from 997 it lands on 1000 and the speed grows. *)
Example update_overshoot :
  let st := set_score 998 (set_speed (23 # 5) started) in
  score (update st) = 1001 /\
  speed (update st) = (23 # 5)%Q.
Proof. split; reflexivity. Qed.

Example update_exact_multiple :
  let st := set_score 997 (set_speed (23 # 5) started) in
  score (update st) = 1000 /\
  (speed (update st) == 24 # 5)%Q.
Proof. split; reflexivity. Qed.

(** The values the script computes.  From speed 3.2 and score 998 the
    tick reaches score 1000 and stores 3.4000000000000004 as the speed;
    after 45 additions of 0.2 to 3 the speed is below 12, and the score
    then grows by 7 a tick. *)
Example b64_speed_up_rounds :
  let st := B64.set_score 998
              (B64.set_speed 3.2 (B64.set_stripeOffset 6.2 B64.started)) in
  B64.score (B64.update st) = 1000 /\
  B64.speed (B64.update st) = 3.4000000000000004%float /\
  B64.stripeOffset (B64.update st) = 9.600000000000001%float /\
  (B64.speedUps 45 3 <? 12)%float = true /\
  B64.Math_floor (B64.speedUps 45 3 / 1.5)%float = 7.
Proof.
  cbv zeta.
  repeat (apply conj; [vm_compute; reflexivity|]).
  vm_compute. reflexivity.
Qed.

(** A random number just below a third, times 3, rounds to 1: the
    obstacle is spawned in lane 1. *)
Example b64_spawn_lane_rounds :
  B64.Math_floor (0.3333333333333333 * B64.of_Z lanes)%float = 1.
Proof. vm_compute. reflexivity. Qed.

(** On a canvas of height 640 at speed 3 the obstacle that starts at
    [y = -70] is at 102 after 43 ticks and at 738 after 202, and the tick
    after that removes it; the obstacles behind it are those spawned
    meanwhile. *)
Example b64_removed_at_tick_203 :
  map B64.Enemy.y (B64.enemies (B64.ticks 43 B64.oneObstacle))
    = [102%float] /\
  map B64.Enemy.y (B64.enemies (B64.ticks 202 B64.oneObstacle))
    = [738%float; 386%float; 26%float] /\
  map B64.Enemy.y (B64.enemies (B64.ticks 203 B64.oneObstacle))
    = [390%float; 30%float].
Proof.
  cbv zeta.
  repeat (apply conj; [vm_compute; reflexivity|]).
  vm_compute. reflexivity.
Qed.

(** The same obstacle in the player's lane: the tick 131 ends the game on
    the collision, no later tick moves the pool, and the obstacle stays in
    it. *)
Example b64_collision_keeps_obstacle :
  let st := B64.set_enemies [B64.Enemy.mk 1 280 (-70) 40 70] B64.started in
  B64.running (B64.ticks 130 st) = true /\
  B64.running (B64.ticks 131 st) = false /\
  map B64.Enemy.y (B64.enemies (B64.ticks 131 st))
    = [454%float; 102%float] /\
  B64.enemies (B64.ticks 400 st) = B64.enemies (B64.ticks 131 st).
Proof.
  cbv zeta.
  repeat (apply conj; [vm_compute; reflexivity|]).
  vm_compute. reflexivity.
Qed.

(** On a canvas of height 270, at the speed two increases leave, the sums
    round: after 100 ticks the obstacle is just below the bound 370, which
    100 exact additions of 4.4 would have reached, and it is removed by
    tick 101. *)
Example b64_low_canvas_removed_at_tick_101 :
  B64.speed B64.lowCanvas = 3.4000000000000004%float /\
  B64.speed (B64.ticks 101 B64.lowCanvas) = B64.speed B64.lowCanvas /\
  map B64.Enemy.y (B64.enemies (B64.ticks 100 B64.lowCanvas))
    = [369.99999999999966%float; (-17.20000000000001)%float] /\
  map B64.Enemy.y (B64.enemies (B64.ticks 101 B64.lowCanvas))
    = [(-12.80000000000001)%float].
Proof.
  cbv zeta.
  repeat (apply conj; [vm_compute; reflexivity|]).
  vm_compute. reflexivity.
Qed.

(** ** Witnesses *)

Lemma update_score_then_speed_witness :
  B64.running (B64.set_score 998 (B64.set_speed 3.2 B64.started)) = true /\
  is_finite (3.2 / 1.5)%float = true /\
  B64.score (B64.update (B64.set_score 998 (B64.set_speed 3.2 B64.started)))
    = 1000 /\
  B64.speed (B64.update (B64.set_score 998 (B64.set_speed 3.2 B64.started)))
    = 3.4000000000000004%float.
Proof.
  split; [reflexivity|]. split; [vm_compute; reflexivity|].
  destruct (update_score_then_speed
              (B64.set_score 998 (B64.set_speed 3.2 B64.started))
              eq_refl eq_refl)
    as (Hsc & Hup & _).
  split; [rewrite Hsc; vm_compute; reflexivity|].
  rewrite Hup; vm_compute; reflexivity.
Defined.


Lemma resetGame_loop_started_witness :
  animationFrameId started = Some 1%positive /\
  score (resetGame started) = 0 /\
  resetGame (resetGame started) =
  resetGame started.
Proof.
  split; [reflexivity|].
  destruct (resetGame_loop_started started 1 eq_refl)
    as (Hsc & _ & _ & _ & _ & _ & _ & Hidem).
  split; [exact Hsc | exact Hidem].
Defined.

Lemma obstacle_removed_below_screen_witness :
  In (B64.Enemy.mk 0 120 (-70) 40 70) (B64.enemies B64.oneObstacle) /\
  B64.running (B64.ticks 202 B64.oneObstacle) = true /\
  B64.onScreenFor B64.oneObstacle (B64.Enemy.mk 0 120 (-70) 40 70) 202
    = true /\
  In (B64.track B64.oneObstacle (B64.Enemy.mk 0 120 (-70) 40 70) 202)
     (B64.enemies (B64.ticks 202 B64.oneObstacle)) /\
  B64.Enemy.y (B64.track B64.oneObstacle (B64.Enemy.mk 0 120 (-70) 40 70) 203)
    = 742%float /\
  ~ In (B64.track B64.oneObstacle (B64.Enemy.mk 0 120 (-70) 40 70) 203)
       (B64.enemies (B64.ticks 203 B64.oneObstacle)).
Proof.
  assert (He : In (B64.Enemy.mk 0 120 (-70) 40 70)
                  (B64.enemies B64.oneObstacle)) by (left; reflexivity).
  assert (Hrun : B64.running (B64.ticks 202 B64.oneObstacle) = true)
    by (vm_compute; reflexivity).
  assert (Hon : B64.onScreenFor B64.oneObstacle
                  (B64.Enemy.mk 0 120 (-70) 40 70) 202 = true)
    by (vm_compute; reflexivity).
  destruct (obstacle_removed_below_screen B64.oneObstacle
              (B64.Enemy.mk 0 120 (-70) 40 70) 202 He Hrun Hon)
    as (_ & Hin & _ & _ & Hiff).
  repeat (apply conj; [assumption|]).
  apply conj; [vm_compute; reflexivity|].
  intros Hin'. pose proof (proj1 Hiff Hin') as Hoff.
  vm_compute in Hoff. discriminate Hoff.
Defined.

Lemma speed_never_decreases_witness :
  B64.speed B64.started = 3%float /\
  B64.speed (B64.ticks 498 B64.started) = 3%float /\
  B64.speed (B64.ticks 499 B64.started) = 3.2%float /\
  (B64.value (B64.speed (B64.ticks 498 B64.started))
   <= B64.value (B64.speed (B64.ticks 499 B64.started)))%Q.
Proof.
  split; [reflexivity|]. split; [vm_compute; reflexivity|].
  split; [vm_compute; reflexivity|].
  destruct (speed_never_decreases B64.started started) as (_ & _ & Hup & _).
  refine (proj2 (Hup eq_refl 498%nat 499%nat _ _)).
  - apply Nat.le_succ_diag_r.
  - assert (Hc : B64.speedUpCount 499 B64.started = 1%nat)
      by (vm_compute; reflexivity).
    rewrite Hc. discriminate.
Defined.

Lemma endGame_high_score_witness :
  let st := set_score 10 started in
  score st > highScore st /\
  highScore (endGame st) = 10 /\
  setHighScoreCalls (host (endGame st)) = [10].
Proof.
  intros st.
  assert (Hgt : score st > highScore st) by reflexivity.
  split; [exact Hgt|].
  destruct (endGame_high_score st) as (_ & _ & Hup & _).
  exact (Hup Hgt).
Defined.

Lemma lane_clamped_witness :
  laneInRange loaded /\
  laneInRange (keydowns
                 [(200, "ArrowRight"); (400, "d"); (600, "D"); (800, "a")]%Q
                 loaded)%string.
Proof.
  assert (Hst : laneInRange loaded) by (unfold laneInRange; simpl; lia).
  split; [exact Hst|].
  exact (proj1 (lane_clamped loaded Hst) _).
Defined.

Lemma keydown_debounce_witness :
  isRightKey "ArrowRight" = true /\
  (minMoveInterval <= 200 - lastMoveTime loaded)%Q /\
  (50 < minMoveInterval)%Q /\
  Player.lane (player (keydown 200 "ArrowRight" loaded)) = 2 /\
  keydown (200 + 50) "ArrowRight" (keydown 200 "ArrowRight" loaded) =
  keydown 200 "ArrowRight" loaded.
Proof.
  assert (Hle : (minMoveInterval <= 200 - lastMoveTime loaded)%Q)
    by (unfold Qle; simpl; lia).
  assert (Hdt : (50 < minMoveInterval)%Q) by reflexivity.
  split; [reflexivity|]. split; [exact Hle|]. split; [exact Hdt|].
  destruct (keydown_debounce loaded 200 "ArrowRight")
    as (_ & _ & _ & _ & Hright).
  destruct (Hright eq_refl Hle) as [Hlane Hsecond].
  split; [exact Hlane | exact (Hsecond 50%Q "ArrowRight"%string Hdt)].
Defined.

Lemma score_monotone_then_frozen_witness :
  (0 <= speed started)%Q /\
  score (ticks 2 started) <= score (ticks 5 started).
Proof.
  assert (Hs : (0 <= speed started)%Q) by (unfold Qle; simpl; lia).
  split; [exact Hs|].
  apply (proj1 (score_monotone_then_frozen started) Hs). lia.
Defined.

Lemma update_stopped_noop_witness :
  running loaded = false /\ update loaded = loaded.
Proof.
  split; [reflexivity | exact (update_stopped_noop loaded eq_refl)].
Defined.

(** ** Counterexamples *)

(** C3 as stated fails on the first call.  The page is loaded and the loop
    is not started: [resetGame] starts it by calling [gameLoop], which runs
    a tick at once, so the state it leaves has score 2, [spawnTimer] 1 and
    [stripeOffset] 3; and a second call, which finds the loop started,
    leaves another state than the first. *)
Lemma resetGame_first_call_counterexample :
  animationFrameId loaded = None /\
  score (resetGame loaded) = 2 /\
  spawnTimer (resetGame loaded) = 1 /\
  stripeOffset (resetGame loaded) = 3%Q /\
  score (resetGame (resetGame loaded)) = 0 /\
  resetGame (resetGame loaded) <>
  resetGame loaded.
Proof.
  repeat split.
  intros Heq. apply (f_equal score) in Heq. discriminate Heq.
Qed.

(** C4 as stated fails.  On a screen of height 640, at speed 3, the claim
    removes the obstacle after ceil(170 / 4) = 43 ticks; after 43 ticks it
    is at [y = 102], far above the bound [H + 100 = 740], and in the pool.
    It leaves the pool at tick 203. *)
Lemma obstacle_still_in_pool_counterexample :
  running oneObstacle = true /\
  speed oneObstacle = 3%Q /\
  map Enemy.y (enemies oneObstacle) = [(-70)%Q] /\
  Qceiling ((70 + 100) / (speed oneObstacle + 1)) = 43 /\
  speed (ticks 43 oneObstacle) = 3%Q /\
  map Enemy.y (enemies (ticks 43 oneObstacle)) = [102%Q] /\
  enemies (ticks 43 oneObstacle) <> [].
Proof.
  repeat split; try (vm_compute; reflexivity).
  intros Heq. vm_compute in Heq. discriminate Heq.
Qed.

(** C5 as stated fails when the host exposes no [electronAPI]: the score
    is above the high score and the high score is updated, yet no call to
    [setHighScore] is made. *)
Lemma endGame_without_api_counterexample :
  let st := set_score 10 loadedNoAPI in
  score st > highScore st /\
  highScore (endGame st) = 10 /\
  setHighScoreCalls (host (endGame st)) = setHighScoreCalls (host st) /\
  setHighScoreCalls (host (endGame st)) = [].
Proof. repeat split. Qed.

(** ** Witnesses of the further properties *)

Lemma zeroRandom_in_unit (st : Game) :
  random (host st) = zeroRandom -> randomInUnit st.
Proof.
  intros Hr n. rewrite Hr. unfold zeroRandom. split; [apply Qle_refl|].
  reflexivity.
Defined.

Lemma spawnEnemy_new_obstacle_witness :
  exists e : Enemy.t,
    enemies (spawnEnemy started) = enemies started ++ [e] /\
    0 <= Enemy.lane e <= lanes - 1.
Proof.
  destruct (spawnEnemy_new_obstacle started) as (e & He & Hl & _).
  - split; [apply Qle_refl | reflexivity].
  - split; [apply Qle_refl | reflexivity].
  - exists e. split; [exact He | exact Hl].
Defined.


Lemma run_spawnTimer_range_witness :
  0 <= spawnTimer loaded < spawnInterval /\
  0 <= spawnTimer (run [Restart; Frame; KeyDown 400 "a"; Frame; EndGame]
                       loaded) < spawnInterval.
Proof.
  assert (Hst : 0 <= spawnTimer loaded < spawnInterval)
    by (split; [apply Z.le_refl | reflexivity]).
  split; [exact Hst|].
  exact (run_spawnTimer_range _ loaded Hst).
Defined.

Lemma update_pool_on_screen_witness :
  B64.running B64.oneObstacle = true /\
  B64.Player.x (B64.player (B64.update B64.oneObstacle)) =
    B64.laneCenter (B64.layout B64.oneObstacle)
                   (B64.Player.lane (B64.player B64.oneObstacle)).
Proof.
  split; [reflexivity|].
  exact (proj1 (proj2 (update_pool_on_screen B64.oneObstacle eq_refl))).
Defined.

Lemma run_enemy_lanes_in_range_witness :
  randomInUnit oneObstacle /\ enemyLanesInRange oneObstacle /\
  enemyLanesInRange (run [Frame; Frame; Restart; Frame] oneObstacle).
Proof.
  assert (Hr : randomInUnit oneObstacle)
    by (apply zeroRandom_in_unit; reflexivity).
  assert (Hl : enemyLanesInRange oneObstacle).
  { unfold enemyLanesInRange. constructor; [|constructor].
    split; [apply Z.le_refl | discriminate]. }
  split; [exact Hr|]. split; [exact Hl|].
  exact (run_enemy_lanes_in_range _ oneObstacle Hr Hl).
Defined.


Lemma run_highScore_witness :
  (running loaded = false -> score loaded <= highScore loaded) /\
  highScore loaded <= highScore (run [Restart; Frame; EndGame] loaded).
Proof.
  split; [intros _; apply Z.le_refl|].
  exact (proj1 (run_highScore _ loaded)).
Defined.

Lemma run_single_loop_witness :
  animationFrameId started <> None /\
  Z.pos (rafNext (host (run [Frame; Restart; Frame; Restart] started))) =
    Z.pos (rafNext (host started)) + 2.
Proof.
  assert (Hst : animationFrameId started <> None) by discriminate.
  split; [exact Hst|].
  exact (proj1 (proj2 (run_single_loop
                         [Frame; Restart; Frame; Restart] started Hst))).
Defined.

Lemma keydown_writes_lane_only_witness :
  laneInRange loaded /\
  Z.abs (Player.lane (player (keydown 200 "ArrowLeft" loaded))
         - Player.lane (player loaded)) <= 1.
Proof.
  assert (Hst : laneInRange loaded) by (split; discriminate).
  split; [exact Hst|].
  destruct (keydown_writes_lane_only 200 "ArrowLeft" loaded)
    as (_ & _ & _ & _ & _ & _ & _ & _ & _ & _ & _ & _ & _ & _ & Hl).
  exact (Hl Hst).
Defined.

Lemma first_speed_up_at_tick_500_witness :
  score restarted = 0 /\ speed restarted = 3%Q /\ (10 <= 500)%nat /\
  running (ticks 10 restarted) = true /\
  score (ticks 10 restarted) = 20.
Proof.
  assert (Hn : (10 <= 500)%nat) by (apply Nat.leb_le; reflexivity).
  assert (Hr : running (ticks 10 restarted) = true)
    by (vm_compute; reflexivity).
  split; [reflexivity|]. split; [reflexivity|]. split; [exact Hn|].
  split; [exact Hr|].
  exact (proj1 (first_speed_up_at_tick_500 restarted 10
                  eq_refl eq_refl Hn Hr)).
Defined.

Lemma restart_grace_period_witness :
  animationFrameId started = Some 1%positive /\ (50 < 90)%nat /\
  running (ticks 50 (resetGame started)) = true /\
  enemies (ticks 50 (resetGame started)) = [].
Proof.
  assert (Hn : (50 < 90)%nat) by (apply Nat.ltb_lt; reflexivity).
  split; [reflexivity|]. split; [exact Hn|].
  destruct (restart_grace_period started 1 50 eq_refl Hn)
    as (Hr & He & _).
  split; [exact Hr | exact He].
Defined.

Lemma score_gains_two_per_tick_witness :
  (3 <= speed started)%Q /\ running (ticks 10 started) = true /\
  score started + 2 * Z.of_nat 10 <= score (ticks 10 started).
Proof.
  assert (Hs : (3 <= speed started)%Q) by apply Qle_refl.
  assert (Hr : running (ticks 10 started) = true)
    by (vm_compute; reflexivity).
  split; [exact Hs|]. split; [exact Hr|].
  exact (score_gains_two_per_tick started 10 Hs Hr).
Defined.


Lemma parseInt_String_witness :
  safeInteger 1234 /\ noLeadingDigit "px" = true /\
  parseInt (String_of_number 1234 ++ "px") = Some 1234.
Proof.
  assert (Hs : safeInteger 1234) by reflexivity.
  split; [exact Hs|]. split; [reflexivity|].
  exact (proj1 (parseInt_String 1234 "px" Hs eq_refl)).
Defined.

Lemma getHighScore_setHighScore_witness :
  getItemThrows otherItemStorage = false /\
  setItemThrows otherItemStorage = false /\ safeInteger 1234 /\
  getHighScore (setHighScore 1234 otherItemStorage) = Some 1234.
Proof.
  assert (Hs : safeInteger 1234) by reflexivity.
  split; [reflexivity|]. split; [reflexivity|]. split; [exact Hs|].
  exact (getHighScore_setHighScore 1234 otherItemStorage
           eq_refl eq_refl Hs).
Defined.

Lemma preload_defaults_witness :
  getItemThrows brokenStorage = true /\
  getHighScore brokenStorage = Some 0 /\
  setHighScore 7 brokenStorage = brokenStorage.
Proof.
  destruct (preload_defaults 7 brokenStorage) as (Hg & _ & _ & Hs & _).
  split; [reflexivity|]. split; [exact (Hg eq_refl) | exact (Hs eq_refl)].
Defined.

Lemma stored_high_score_in_sync_witness :
  let st := set_score 10 started in
  hasSetHighScore (host st) = true /\
  getHighScore (persist (setHighScoreCalls (host st)) otherItemStorage) =
    Some (highScore st) /\
  Forall safeInteger (setHighScoreCalls (host (run [Frame; EndGame] st))) /\
  getHighScore
    (persist (setHighScoreCalls (host (run [Frame; EndGame] st)))
             otherItemStorage) =
  Some (highScore (run [Frame; EndGame] st)).
Proof.
  cbv zeta.
  assert (Hsafe : Forall safeInteger
                    (setHighScoreCalls
                       (host (run [Frame; EndGame] (set_score 10 started))))).
  { assert (Hc : setHighScoreCalls
                   (host (run [Frame; EndGame] (set_score 10 started)))
                 = [12]) by (vm_compute; reflexivity).
    rewrite Hc. constructor; [reflexivity | constructor]. }
  split; [reflexivity|]. split; [reflexivity|]. split; [exact Hsafe|].
  exact (stored_high_score_in_sync [Frame; EndGame] (set_score 10 started)
           otherItemStorage eq_refl eq_refl eq_refl eq_refl Hsafe).
Defined.

Lemma resizeCanvas_road_witness :
  0 <= 2 <= lanes - 1 /\
  let l := layout (game (resizeCanvas 1280 800 loadedPage)) in
  (roadMargin l < laneCenter l 2 < W l - roadMargin l)%Q.
Proof.
  assert (Hl : 0 <= 2 <= lanes - 1)
    by (split; [discriminate | apply Z.le_refl]).
  split; [exact Hl|].
  destruct (resizeCanvas_road 1280 800 loadedPage)
    as (_ & _ & _ & _ & Hc).
  exact (Hc 2 Hl).
Defined.

Lemma resizeCanvas_no_image_same_lane_witness :
  playerImgLoaded (images loadedPage) = false /\
  (Player.w (player (game (resizeCanvas 1280 800 loadedPage))) <= 80)%Q.
Proof.
  split; [reflexivity|].
  exact (proj1 (proj2 (resizeCanvas_no_image_same_lane
                         1280 800 loadedPage) eq_refl)).
Defined.

Lemma resetGame_first_call_state_witness :
  animationFrameId loaded = None /\
  running (resetGame loaded) = true /\ score (resetGame loaded) = 2.
Proof.
  split; [reflexivity|].
  destruct (resetGame_first_call_state loaded eq_refl) as (Hr & Hs & _).
  split; [exact Hr | exact Hs].
Defined.

Lemma onDOMContentLoaded_starts_witness :
  let s := setHighScore 1234 otherItemStorage in
  animationFrameId (game loadedPage) = None /\
  getHighScore s = Some 1234 /\
  exists pg' : Page,
    onDOMContentLoaded true s 1280 800 loadedPage = Some pg' /\
    highScore (game pg') = 1234 /\ running (game pg') = true.
Proof.
  cbv zeta.
  assert (Hget : getHighScore (setHighScore 1234 otherItemStorage)
                 = Some 1234) by reflexivity.
  split; [reflexivity|]. split; [exact Hget|].
  destruct (proj1 (onDOMContentLoaded_starts
                     (setHighScore 1234 otherItemStorage) 1280 800
                     loadedPage 1234 eq_refl Hget))
    as (pg' & Hp & Hh & Hr & _).
  exists pg'. split; [exact Hp|]. split; [exact Hh | exact Hr].
Defined.

Lemma hudSpeed_shows_tenths_witness :
  (2 <= 100)%nat /\
  B64.speedUps 2 3 = 3.4000000000000004%float /\
  B64.hudSpeed (B64.speedUps 2 3) = 3.4%float.
Proof.
  assert (Hk : (2 <= 100)%nat) by lia.
  split; [exact Hk|]. split; [vm_compute; reflexivity|].
  rewrite (hudSpeed_shows_tenths 2 Hk). vm_compute. reflexivity.
Defined.
